(** * Hyperliquid consensus bot: the consensus engine and its command channel

    A shallow embedding of [hl_consensus.py] (the poll / detect / dedup /
    dispatch loop and the Telegram command processor) and of the
    [PATCH /config] endpoint of [app.py], followed by the properties the
    specification states about them.

    Conventions of the embedding:
    - a Python [float] is a primitive binary64 float, so comparisons and
      products are the ones the interpreter computes;
    - a Python [str] is a [string] of bytes; case mapping and white space
      follow Python on ASCII text, other bytes are carried unchanged;
    - a [dict] used as a table is a [gmap]; the configuration dictionary is a
      record whose optional keys are [option] fields;
    - [None] is [None];
    - network replies are inputs ([world]), messages sent are outputs
      (lists of [tg_msg] / [event]); console logging is left out. *)

From Stdlib Require Import ZArith NArith Ascii String List Floats.
From stdpp Require Import base option list strings gmap sorting pretty.
Set Warnings "-inexact-float,-register-all".

Local Open Scope string_scope.
Local Open Scope list_scope.

(** ** Python runtime: the built-ins the program calls *)
Module Py.

(** *** Characters and case *)

Definition code (c : ascii) : N := N_of_ascii c.

Definition in_range (lo hi : N) (c : ascii) : bool :=
  ((lo <=? code c) && (code c <=? hi))%N.

Definition is_upper_char : ascii → bool := in_range 65 90.
Definition is_lower_char : ascii → bool := in_range 97 122.
Definition is_digit_char : ascii → bool := in_range 48 57.

(** [str.isspace] on ASCII: TAB..CR, FS..US and the blank. *)
Definition is_space (c : ascii) : bool :=
  in_range 9 13 c || in_range 28 32 c.

Definition lower_char (c : ascii) : ascii :=
  if is_upper_char c then ascii_of_N (code c + 32) else c.
Definition upper_char (c : ascii) : ascii :=
  if is_lower_char c then ascii_of_N (code c - 32) else c.

Fixpoint map_chars (f : ascii → ascii) (s : string) : string :=
  match s with
  | EmptyString => EmptyString
  | String c r => String (f c) (map_chars f r)
  end.

(** [s.lower()] and [s.upper()]. *)
Definition lower : string → string := map_chars lower_char.
Definition upper : string → string := map_chars upper_char.

Fixpoint all_chars (p : ascii → bool) (s : string) : bool :=
  match s with
  | EmptyString => true
  | String c r => p c && all_chars p r
  end.

(** *** Trimming and splitting *)

Fixpoint lstrip (s : string) : string :=
  match s with
  | EmptyString => EmptyString
  | String c r => if is_space c then lstrip r else s
  end.

Fixpoint rstrip (s : string) : string :=
  match s with
  | EmptyString => EmptyString
  | String c r =>
      match rstrip r with
      | EmptyString => if is_space c then EmptyString else String c EmptyString
      | r' => String c r'
      end
  end.

(** [s.strip()]. *)
Definition strip (s : string) : string := rstrip (lstrip s).

(** [s.split()]: the maximal runs of non-blank characters. *)
Fixpoint split (s : string) : list string :=
  match s with
  | EmptyString => []
  | String c r =>
      if is_space c then split r
      else match r with
           | EmptyString => [String c EmptyString]
           | String d _ =>
               if is_space d then String c EmptyString :: split r
               else match split r with
                    | w :: ws => String c w :: ws
                    | [] => [String c EmptyString]
                    end
           end
  end.

(** The first word of [s] and what follows it. *)
Fixpoint span_word (s : string) : string * string :=
  match s with
  | EmptyString => (EmptyString, EmptyString)
  | String c r =>
      if is_space c then (EmptyString, s)
      else let '(w, rest) := span_word r in (String c w, rest)
  end.

(** [s.split(maxsplit=1)]: the first word, then the remainder with its
    leading blanks removed (trailing blanks are kept). *)
Definition split_max1 (s : string) : list string :=
  match lstrip s with
  | EmptyString => []
  | s1 =>
      let '(w, rest) := span_word s1 in
      match lstrip rest with
      | EmptyString => [w]
      | rest' => [w; rest']
      end
  end.

(** [s.split(",")]: the pieces between the separators, empty ones kept. *)
Fixpoint split_on (sep : ascii) (s : string) : list string :=
  match s with
  | EmptyString => [EmptyString]
  | String c r =>
      if Ascii.eqb c sep then EmptyString :: split_on sep r
      else match split_on sep r with
           | w :: ws => String c w :: ws
           | [] => [String c EmptyString]
           end
  end.

(** [s.startswith(p)]. *)
Fixpoint startswith (s p : string) : bool :=
  match p with
  | EmptyString => true
  | String a p' =>
      match s with
      | EmptyString => false
      | String b s' => Ascii.eqb b a && startswith s' p'
      end
  end.

(** [sep.join(l)]. *)
Definition join (sep : string) (l : list string) : string :=
  String.concat sep l.

(** [sorted(l)] on strings: ascending in the code-point order.  The order
    is total and antisymmetric, so the result does not depend on the
    sorting algorithm. *)
Definition sorted (l : list string) : list string :=
  merge_sort String.le l.

(** *** [int(s)] on a blank-free token: an optional sign, then decimal
    digits, single underscores allowed between digits, and no more than
    4300 digits (beyond that limit [int] raises [ValueError]). *)

Definition digit_val (c : ascii) : Z := Z.of_N (code c - 48).

(** The number of decimal digits in [s]. *)
Fixpoint count_digits (s : string) : N :=
  match s with
  | EmptyString => 0
  | String c r => (if is_digit_char c then 1 else 0) + count_digits r
  end.

Fixpoint int_digits (acc : Z) (after_digit : bool) (s : string) : option Z :=
  match s with
  | EmptyString => if after_digit then Some acc else None
  | String c r =>
      if is_digit_char c then int_digits (10 * acc + digit_val c) true r
      else if Ascii.eqb c "_" then
        if after_digit then int_digits acc false r else None
      else None
  end.

(** The digits after the sign. *)
Definition int_unsigned (s : string) : option Z :=
  if (4300 <? count_digits s)%N then None else int_digits 0 false s.

Definition int_of_str (s : string) : option Z :=
  match s with
  | String "-" r => Z.opp <$> int_unsigned r
  | String "+" r => int_unsigned r
  | _ => int_unsigned s
  end.

(** *** Floats *)

Definition fabs (x : float) : float := PrimFloat.abs x.
Definition fgt (x y : float) : bool := PrimFloat.ltb y x.
Definition flt (x y : float) : bool := PrimFloat.ltb x y.
Definition fmul (x y : float) : float := PrimFloat.mul x y.
Definition fsub (x y : float) : float := PrimFloat.sub x y.

(** Truth value of a float: everything but the two zeros. *)
Definition truthy (x : float) : bool := negb (PrimFloat.eqb x 0%float).

(** The value [round(x, 4)] denotes: a count of ten-thousandths with a
    sign, or one of the special values. *)
Inductive dec4 : Type :=
| DNan
| DInf (neg : bool)
| DFin (neg : bool) (units : N).

(** Nearest integer to [num / den], ties to even. *)
Definition div_half_even (num den : Z) : Z :=
  let q := (num / den)%Z in
  let r := (num mod den)%Z in
  match (2 * r ?= den)%Z with
  | Lt => q
  | Gt => (q + 1)%Z
  | Eq => if Z.even q then q else (q + 1)%Z
  end.

(** [round(x, 4)]: the exact binary value of [x] is rounded to the nearest
    multiple of 10^-4, ties to even. *)
Definition round4 (x : float) : dec4 :=
  match Prim2SF x with
  | S754_nan => DNan
  | S754_infinity s => DInf s
  | S754_zero s => DFin s 0
  | S754_finite s m e =>
      let u :=
        if (0 <=? e)%Z
        then (Z.pos m * 2 ^ e * 10000)%Z
        else div_half_even (Z.pos m * 10000) (2 ^ (- e)) in
      DFin s (Z.to_N u)
  end.

Definition digit_char (d : N) : ascii := ascii_of_N (48 + d).

(** The digits after the point: four places, trailing zeros dropped, at
    least one kept. *)
Definition frac4 (k : N) : string :=
  let d1 := digit_char (k / 1000) in
  let d2 := digit_char (k / 100 mod 10) in
  let d3 := digit_char (k / 10 mod 10) in
  let d4 := digit_char (k mod 10) in
  if negb (k mod 10 =? 0)%N then String d1 (String d2 (String d3 (String d4 "")))
  else if negb (k mod 100 =? 0)%N then String d1 (String d2 (String d3 ""))
  else if negb (k mod 1000 =? 0)%N then String d1 (String d2 "")
  else String d1 "".

(** The text of [u] ten-thousandths: integer part, point, fraction. *)
Definition magnitude_text (u : N) : string :=
  pretty (u / 10000)%N +:+ "." +:+ frac4 (u mod 10000)%N.

(** [str(round(x, 4))]: the shortest text that reads back as the rounded
    value.  For magnitudes below 10^12 that text is the positional
    decimal below; larger magnitudes are kept positional as well. *)
Definition str_dec4 (d : dec4) : string :=
  match d with
  | DNan => "nan"
  | DInf false => "inf"
  | DInf true => "-inf"
  | DFin s u => (if s then "-" else "") +:+ magnitude_text u
  end.

(** [float(n)] of an integer: nearest binary64, ties to even; [None]
    stands for [OverflowError]. *)
Definition float_of_Z (z : Z) : option float :=
  let f := SF2Prim (binary_normalize prec emax z 0 false) in
  match Prim2SF f with
  | S754_infinity _ | S754_nan => None
  | _ => Some f
  end.

(** [int(x)] of a float: truncation towards zero; [None] stands for
    the error raised on infinities and NaN. *)
Definition int_of_float (x : float) : option Z :=
  match Prim2SF x with
  | S754_nan | S754_infinity _ => None
  | S754_zero _ => Some 0%Z
  | S754_finite s m e =>
      let a := if (0 <=? e)%Z then (Z.pos m * 2 ^ e)%Z
               else (Z.pos m / 2 ^ (- e))%Z in
      Some (if s then (- a)%Z else a)
  end.

End Py.

(** ** [hl_consensus.py] *)
Module HL.
Import Py.

(** *** Data *)

Inductive position_side : Type := Long | Short.

Global Instance position_side_eq_dec : EqDecision position_side.
Proof. solve_decision. Defined.

Definition side_str (s : position_side) : string :=
  match s with Long => "long" | Short => "short" end.

(** The text an f-string gives for a side that may be [None]. *)
Definition opt_side_str (s : option position_side) : string :=
  match s with Some s => side_str s | None => "None" end.

(** One entry of [assetPositions] in a [clearinghouseState] reply, with
    each numeric field already passed through [float(...)]: [None] when
    the field is missing, null or not a number.  [pos_liqPx] is
    [liquidationPx], or [liqPx] when that one is missing. *)
Record asset_position : Type := {
  pos_coin : string;
  pos_szi : option float;
  pos_entryPx : option float;
  pos_liqPx : option float
}.

(** The dictionary [extract_pos_details] returns. *)
Record pos_details : Type := {
  d_szi : option float;
  d_entryPx : option float;
  d_liqPx : option float
}.

(** A wallet row.  The rows of [compute_last_snapshot] have no
    ["opened_at"] key: there the field is [None]. *)
Record row : Type := {
  addr : string;
  szi : option float;
  side : option position_side;
  entry : option float;
  mark : option float;
  liq : option float;
  value : option float;
  upnl : option float;
  opened_at : option string
}.

(** The entries [send_stats_report] collects for a side. *)
Record wallet_info : Type := {
  wi_addr : string;
  wi_szi : float;
  wi_entry : option float;
  wi_mark : option float;
  wi_upnl : float
}.

Record signal : Type := {
  sig_coin : string;
  sig_side : position_side;
  sig_count : Z;
  sig_threshold : Z;
  sig_ts : string;
  sig_use_positions : bool;
  sig_wallet_rows : list row
}.

(** The ["config"] dictionary.  A key that may be missing is an [option]
    field; every reader supplies its own default. *)
Record config : Type := {
  wallets : list string;
  symbols : option (list string);
  window_minutes : option Z;
  min_nocional_usd : option float;
  poll_seconds : option Z;
  cooldown_minutes : option Z;
  consensus_count : option Z;
  use_positions : option bool
}.

(** The state of a [ConsensusEngine]. *)
Record engine : Type := {
  cfg : config;
  ws_callback : bool;
  last_signals : gmap string string;
  force_check_flag : bool;
  last_positions : gmap string (list row);
  position_timestamps : gmap string string;
  running : bool
}.

(** What the network answers during one poll cycle or one command:
    [mids] is the dictionary [get_all_mids] returns (keys upper-cased),
    [clearinghouse coin a] the positions in the reply to the
    [clearinghouseState] request sent for wallet [a] while [coin] is being
    sampled (empty when the request failed), [now] the value of
    [now_str()]. *)
Record world : Type := {
  mids : gmap string float;
  clearinghouse : string → string → list asset_position;
  now : string
}.

Definition set_wallets (c : config) (ws : list string) : config :=
  {| wallets := ws; symbols := symbols c;
     window_minutes := window_minutes c;
     min_nocional_usd := min_nocional_usd c;
     poll_seconds := poll_seconds c;
     cooldown_minutes := cooldown_minutes c;
     consensus_count := consensus_count c;
     use_positions := use_positions c |}.

Definition set_symbols (c : config) (ss : list string) : config :=
  {| wallets := wallets c; symbols := Some ss;
     window_minutes := window_minutes c;
     min_nocional_usd := min_nocional_usd c;
     poll_seconds := poll_seconds c;
     cooldown_minutes := cooldown_minutes c;
     consensus_count := consensus_count c;
     use_positions := use_positions c |}.

Definition set_consensus_count (c : config) (n : Z) : config :=
  {| wallets := wallets c; symbols := symbols c;
     window_minutes := window_minutes c;
     min_nocional_usd := min_nocional_usd c;
     poll_seconds := poll_seconds c;
     cooldown_minutes := cooldown_minutes c;
     consensus_count := Some n;
     use_positions := use_positions c |}.

Definition set_poll_seconds (c : config) (n : Z) : config :=
  {| wallets := wallets c; symbols := symbols c;
     window_minutes := window_minutes c;
     min_nocional_usd := min_nocional_usd c;
     poll_seconds := Some n;
     cooldown_minutes := cooldown_minutes c;
     consensus_count := consensus_count c;
     use_positions := use_positions c |}.

Definition set_cfg (e : engine) (c : config) : engine :=
  {| cfg := c; ws_callback := ws_callback e;
     last_signals := last_signals e;
     force_check_flag := force_check_flag e;
     last_positions := last_positions e;
     position_timestamps := position_timestamps e;
     running := running e |}.

Definition set_last_signals (e : engine) (m : gmap string string) : engine :=
  {| cfg := cfg e; ws_callback := ws_callback e;
     last_signals := m;
     force_check_flag := force_check_flag e;
     last_positions := last_positions e;
     position_timestamps := position_timestamps e;
     running := running e |}.

Definition set_force_check_flag (e : engine) (b : bool) : engine :=
  {| cfg := cfg e; ws_callback := ws_callback e;
     last_signals := last_signals e;
     force_check_flag := b;
     last_positions := last_positions e;
     position_timestamps := position_timestamps e;
     running := running e |}.

Definition set_last_positions (e : engine) (m : gmap string (list row)) : engine :=
  {| cfg := cfg e; ws_callback := ws_callback e;
     last_signals := last_signals e;
     force_check_flag := force_check_flag e;
     last_positions := m;
     position_timestamps := position_timestamps e;
     running := running e |}.

Definition set_position_timestamps (e : engine) (m : gmap string string) : engine :=
  {| cfg := cfg e; ws_callback := ws_callback e;
     last_signals := last_signals e;
     force_check_flag := force_check_flag e;
     last_positions := last_positions e;
     position_timestamps := m;
     running := running e |}.

(** Readers with the defaults the code passes to [dict.get]. *)
Definition cfg_coins (c : config) : list string := default ["BTC"] (symbols c).
Definition cfg_consensus (c : config) : Z := default 1%Z (consensus_count c).
Definition cfg_use_positions (c : config) : bool := default true (use_positions c).
Definition cfg_poll_seconds (c : config) : Z := default 12%Z (poll_seconds c).

(** [_WALLET_RE.match(s)] for [^0x[a-fA-F0-9]{40}$]: ["0x"], forty
    hexadecimal digits, and, as [$] allows, at most one final newline. *)
Definition is_hex_char (c : ascii) : bool :=
  in_range 48 57 c || in_range 97 102 c || in_range 65 70 c.

Fixpoint hex_run (n : nat) (s : string) : bool :=
  match n, s with
  | O, EmptyString => true
  | O, String c EmptyString => Ascii.eqb c "010"
  | O, _ => false
  | S n', String c r => is_hex_char c && hex_run n' r
  | S _, EmptyString => false
  end.

Definition _WALLET_RE_match (s : string) : bool :=
  match s with
  | String c1 (String c2 r) =>
      Ascii.eqb c1 "0" && Ascii.eqb c2 "x" && hex_run 40 r
  | _ => false
  end.

(** *** [extract_pos_details] *)

Definition no_details : pos_details :=
  {| d_szi := None; d_entryPx := None; d_liqPx := None |}.

Fixpoint extract_pos_details (state : list asset_position) (coin : string)
  : pos_details :=
  match state with
  | [] => no_details
  | a :: rest =>
      if negb (String.eqb (upper (pos_coin a)) (upper coin))
      then extract_pos_details rest coin
      else {| d_szi := pos_szi a; d_entryPx := pos_entryPx a;
              d_liqPx := pos_liqPx a |}
  end.

(** *** Building rows *)

(** The side as the main loop and [/last] decide it. *)
Definition side_of (szi : option float) : option position_side :=
  match szi with
  | Some z => if fgt z 0 then Some Long
              else if flt z 0 then Some Short else None
  | None => None
  end.

(** [value] and [upnl] as the main loop and [/last] compute them. *)
Definition value_of (szi px : option float) : option float :=
  match szi, px with
  | Some z, Some p => Some (fmul (fabs z) p)
  | _, _ => None
  end.

Definition upnl_of (szi entry px : option float) : option float :=
  match szi, entry, px with
  | Some z, Some e, Some p => Some (fmul (fsub p e) z)
  | _, _, _ => None
  end.

Definition pos_key (addr coin : string) (sd : option position_side) : string :=
  addr +:+ ":" +:+ coin +:+ ":" +:+ opt_side_str sd.

(** One pass of the inner [for addr in wallets] of [loop]: the row, and
    the first-seen table after it. *)
Definition loop_row (w : world) (coin : string)
    (stamps : gmap string string) (a : string)
  : gmap string string * row :=
  let det := extract_pos_details (clearinghouse w coin a) coin in
  let px := mids w !! upper coin in
  let sd := side_of (d_szi det) in
  let k := pos_key a coin sd in
  let stamps' :=
    if bool_decide (is_Some sd) && bool_decide (stamps !! k = None)
    then <[k := now w]> stamps else stamps in
  (stamps',
   {| addr := a; szi := d_szi det; side := sd;
      entry := d_entryPx det; mark := px; liq := d_liqPx det;
      value := value_of (d_szi det) px;
      upnl := upnl_of (d_szi det) (d_entryPx det) px;
      opened_at := stamps' !! k |}).

Fixpoint loop_rows (w : world) (coin : string)
    (stamps : gmap string string) (ws : list string)
  : gmap string string * list row :=
  match ws with
  | [] => (stamps, [])
  | a :: rest =>
      let '(stamps1, r) := loop_row w coin stamps a in
      let '(stamps2, rs) := loop_rows w coin stamps1 rest in
      (stamps2, r :: rs)
  end.

(** The row the [/last] handler builds: as in the loop, but the
    first-seen table is only read. *)
Definition last_row (w : world) (coin : string)
    (stamps : gmap string string) (a : string) : row :=
  let det := extract_pos_details (clearinghouse w coin a) coin in
  let px := mids w !! upper coin in
  let sd := side_of (d_szi det) in
  {| addr := a; szi := d_szi det; side := sd;
     entry := d_entryPx det; mark := px; liq := d_liqPx det;
     value := value_of (d_szi det) px;
     upnl := upnl_of (d_szi det) (d_entryPx det) px;
     opened_at := stamps !! pos_key a coin sd |}.

(** The row [compute_last_snapshot] builds: every test is a truth-value
    test, so a zero counts as missing. *)
Definition snapshot_row (w : world) (coin : string) (a : string) : row :=
  let det := extract_pos_details (clearinghouse w coin a) coin in
  let px := mids w !! upper coin in
  let z := d_szi det in
  let e := d_entryPx det in
  {| addr := a; szi := z;
     side :=
       match z with
       | Some v =>
           if truthy v && fgt v 0 then Some Long
           else if truthy v && flt v 0 then Some Short else None
       | None => None
       end;
     entry := e; mark := px; liq := d_liqPx det;
     value :=
       match z, px with
       | Some v, Some p =>
           if truthy v && truthy p then Some (fmul (fabs v) p) else None
       | _, _ => None
       end;
     upnl :=
       match z, e, px with
       | Some v, Some en, Some p =>
           if truthy v && truthy en && truthy p
           then Some (fmul (fsub p en) v) else None
       | _, _, _ => None
       end;
     opened_at := None |}.

(** What [send_stats_report] does with one wallet: an entry for the long
    list, one for the short list, or the address for the neutral list. *)
Inductive stats_entry : Type :=
| StatLong (i : wallet_info)
| StatShort (i : wallet_info)
| StatNeutral (a : string).

Definition stats_entry_of (w : world) (coin : string) (a : string)
  : stats_entry :=
  let det := extract_pos_details (clearinghouse w coin a) coin in
  match d_szi det with
  | Some z =>
      if fgt (fabs z) 0.0001 then
        let e := d_entryPx det in
        let px := mids w !! upper coin in
        let u :=
          match e, px with
          | Some en, Some p =>
              if truthy en && truthy p then fmul (fsub p en) z else 0%float
          | _, _ => 0%float
          end in
        let info := {| wi_addr := a; wi_szi := z; wi_entry := e;
                       wi_mark := px; wi_upnl := u |} in
        if fgt z 0 then StatLong info else StatShort info
      else StatNeutral a
  | None => StatNeutral a
  end.

(** *** Consensus detection *)

(** [[r for r in rows if r.get("side") == "long"]] and its twin. *)
Definition side_rows (sd : position_side) (rows : list row) : list row :=
  filter (λ r, side r = Some sd) rows.

Definition make_signal (coin : string) (sd : position_side) (consensus : Z)
    (ts : string) (use_pos : bool) (ws : list row) : signal :=
  {| sig_coin := coin; sig_side := sd;
     sig_count := Z.of_nat (length ws); sig_threshold := consensus;
     sig_ts := ts; sig_use_positions := use_pos;
     sig_wallet_rows := ws |}.

(** The list [signals_to_send] of [loop] (and the signals [/last],
    [compute_last_snapshot] and [/snapshot] build in the same way). *)
Definition signals_to_send (coin : string) (consensus : Z) (ts : string)
    (use_pos : bool) (rows : list row) : list signal :=
  let long_wallets := side_rows Long rows in
  let short_wallets := side_rows Short rows in
  let long_count := Z.of_nat (length long_wallets) in
  let short_count := Z.of_nat (length short_wallets) in
  (if (consensus <=? long_count)%Z
   then [make_signal coin Long consensus ts use_pos long_wallets] else [])
  ++
  (if (consensus <=? short_count)%Z
   then [make_signal coin Short consensus ts use_pos short_wallets] else []).

(** *** Deduplication *)

(** The entry of [wallet_data] a row contributes, if any. *)
Definition wallet_datum (r : row) : option string :=
  match szi r with
  | Some z =>
      if fgt (fabs z) 0.0001
      then Some (addr r +:+ ":" +:+ str_dec4 (round4 (fabs z)))
      else None
  | None => None
  end.

Definition wallet_data (rows : list row) : list string :=
  omap wallet_datum rows.

Definition _get_signal_key (s : signal) : string :=
  let wd := wallet_data (sig_wallet_rows s) in
  sig_coin s +:+ ":" +:+ side_str (sig_side s) +:+ ":" +:+
  pretty (length wd) +:+ ":" +:+ join "," (sorted wd).

Definition _has_signal_changed (e : engine) (coin : string) (s : signal)
  : bool :=
  let new_key := _get_signal_key s in
  match last_signals e !! coin with
  | None => true
  | Some old_key => negb (String.eqb new_key old_key)
  end.

(** The key of [last_signals] for a signal of [coin]. *)
Definition dedup_key (coin : string) (sd : position_side) : string :=
  coin +:+ "_" +:+ side_str sd.

(** *** Messages and events *)

(** A message handed to [send_telegram_html], by what it reports; the
    HTML text itself is not modelled. *)
Inductive tg_msg : Type :=
| MsgHelp
| MsgExamples
| MsgWalletUsage (cmd : string)
| MsgWalletInvalid (w : string)
| MsgWalletExists (w : string)
| MsgWalletAdded (w : string) (total : nat)
| MsgWalletNotFound (w : string)
| MsgWalletRemoved (w : string) (total : nat)
| MsgCoinUsage (cmd : string)
| MsgCoinExists (c : string)
| MsgCoinAdded (c : string) (all : list string)
| MsgCoinNotFound (c : string)
| MsgCoinRemoved (c : string) (all : list string)
| MsgConsensusInvalid
| MsgConsensusUpdated (old new : Z)
| MsgIntervalInvalid
| MsgIntervalUpdated (old new : Z)
| MsgReloading
| MsgReloadDone (total : nat)
| MsgLastQuerying
| MsgNoWallets
| MsgSignal (s : signal)
| MsgLastDone
| MsgNoConsensus (consensus : Z)
| MsgStatus (c : config)
| MsgConfig (c : config)
| MsgStatsGenerating
| MsgStats (per_coin : list (string * list stats_entry))
| MsgUnrecognized.

(** What a poll cycle sends out: a signal to the websocket callback, or a
    message to Telegram. *)
Inductive event : Type :=
| WsSignal (s : signal)
| Telegram (m : tg_msg).

(** *** The poll cycle *)

(** The body of [for signal in signals_to_send]. *)
Definition process_signal (coin : string) (e : engine) (s : signal)
  : engine * list event :=
  let signal_key := _get_signal_key s in
  let has_changed := _has_signal_changed e (dedup_key coin (sig_side s)) s in
  if has_changed then
    (set_last_signals e
       (<[dedup_key coin (sig_side s) := signal_key]> (last_signals e)),
     (if ws_callback e then [WsSignal s] else []) ++
     [Telegram (MsgSignal s)])
  else (e, []).

Fixpoint process_signals (coin : string) (e : engine) (l : list signal)
  : engine * list event :=
  match l with
  | [] => (e, [])
  | s :: rest =>
      let '(e1, ev1) := process_signal coin e s in
      let '(e2, ev2) := process_signals coin e1 rest in
      (e2, ev1 ++ ev2)
  end.

(** The body of [for coin in coins], with the values read from the
    configuration at the top of the cycle. *)
Definition loop_coin (w : world) (ws : list string) (consensus : Z)
    (use_pos : bool) (e : engine) (coin : string) : engine * list event :=
  let '(stamps, rows) := loop_rows w coin (position_timestamps e) ws in
  let e1 := set_position_timestamps e stamps in
  let e2 := set_last_positions e1 (<[coin := rows]> (last_positions e1)) in
  process_signals coin e2 (signals_to_send coin consensus (now w) use_pos rows).

Fixpoint loop_coins (w : world) (ws : list string) (consensus : Z)
    (use_pos : bool) (e : engine) (coins : list string)
  : engine * list event :=
  match coins with
  | [] => (e, [])
  | c :: rest =>
      let '(e1, ev1) := loop_coin w ws consensus use_pos e c in
      let '(e2, ev2) := loop_coins w ws consensus use_pos e1 rest in
      (e2, ev1 ++ ev2)
  end.

(** One turn of [while self.running] in [loop], up to the sleep. *)
Definition loop_iteration (w : world) (e : engine) : engine * list event :=
  let config := cfg e in
  match wallets config with
  | [] => (e, [])
  | ws =>
      let e1 := if force_check_flag e then set_force_check_flag e false else e in
      loop_coins w ws (cfg_consensus config) (cfg_use_positions config) e1
        (cfg_coins config)
  end.

(** *** The command processor *)

(** [text_original.split(maxsplit=1)[1].strip() if
    len(text_original.split()) > 1 else ""].  With two words or more the
    second piece exists; the last branch is never taken. *)
Definition command_arg (text_original : string) : string :=
  if bool_decide (1 < length (split text_original)) then
    match split_max1 text_original !! 1%nat with
    | Some a => strip a
    | None => ""
    end
  else "".

(** [l.remove(x)]: the first element equal to [x] goes. *)
Fixpoint list_remove (x : string) (l : list string) : list string :=
  match l with
  | [] => []
  | y :: rest => if String.eqb y x then rest else y :: list_remove x rest
  end.

(** The search loop of [/remove_wallet]. *)
Definition wallet_matches (wallet w : string) : bool :=
  String.eqb (lower w) (lower wallet) ||
  startswith (lower w) (lower wallet).

Definition find_wallet (wallet : string) (ws : list string) : option string :=
  List.find (wallet_matches wallet) ws.

(** One coin of the [/last] handler: the messages it sends. *)
Definition last_coin (w : world) (e : engine) (ws : list string)
    (consensus : Z) (coin : string) : list signal :=
  signals_to_send coin consensus (now w) true
    (map (last_row w coin (position_timestamps e)) ws).

(** [send_stats_report]. *)
Definition send_stats_report (w : world) (e : engine) : list tg_msg :=
  let config := cfg e in
  match wallets config with
  | [] => [MsgNoWallets]
  | ws =>
      [MsgStats
         (map (λ coin, (coin, map (stats_entry_of w coin) ws))
            (cfg_coins config))]
  end.

(** [compute_last_snapshot]. *)
Definition compute_last_snapshot (w : world) (e : engine) : list signal :=
  let config := cfg e in
  match wallets config with
  | [] => []
  | ws =>
      flat_map
        (λ coin, signals_to_send coin (cfg_consensus config) (now w) true
                   (map (snapshot_row w coin) ws))
        (cfg_coins config)
  end.

Definition process_telegram_command (w : world) (text : string) (e : engine)
  : engine * list tg_msg :=
  let text_lower := lower (strip text) in
  let text_original := strip text in
  let config := cfg e in
  if String.eqb text_lower "/start" || String.eqb text_lower "/help" then
    (e, [MsgHelp])
  else if String.eqb text_lower "/commands" ||
          String.eqb text_lower "/ejemplos" ||
          String.eqb text_lower "/examples" then
    (e, [MsgExamples])
  else if startswith text_lower "/add_wallet " then
    let wallet := command_arg text_original in
    if String.eqb wallet "" then (e, [MsgWalletUsage "/add_wallet"])
    else if negb (_WALLET_RE_match wallet) then (e, [MsgWalletInvalid wallet])
    else
      let ws := wallets config in
      if bool_decide (wallet ∈ ws) then (e, [MsgWalletExists wallet])
      else
        let ws' := ws ++ [wallet] in
        (set_cfg e (set_wallets config ws'),
         [MsgWalletAdded wallet (length ws')])
  else if startswith text_lower "/remove_wallet " then
    let wallet := command_arg text_original in
    if String.eqb wallet "" then (e, [MsgWalletUsage "/remove_wallet"])
    else
      let ws := wallets config in
      match find_wallet wallet ws with
      | Some wallet_to_remove =>
          if String.eqb wallet_to_remove "" then (e, [MsgWalletNotFound wallet])
          else
            let ws' := list_remove wallet_to_remove ws in
            (set_cfg e (set_wallets config ws'),
             [MsgWalletRemoved wallet_to_remove (length ws')])
      | None => (e, [MsgWalletNotFound wallet])
      end
  else if startswith text_lower "/add_coin " then
    let coin := upper (command_arg text_original) in
    if String.eqb coin "" then (e, [MsgCoinUsage "/add_coin"])
    else
      let ss := default [] (symbols config) in
      if bool_decide (coin ∈ ss) then (e, [MsgCoinExists coin])
      else
        let ss' := ss ++ [coin] in
        (set_cfg e (set_symbols config ss'), [MsgCoinAdded coin ss'])
  else if startswith text_lower "/remove_coin " then
    let coin := upper (command_arg text_original) in
    if String.eqb coin "" then (e, [MsgCoinUsage "/remove_coin"])
    else
      let ss := default [] (symbols config) in
      if negb (bool_decide (coin ∈ ss)) then (e, [MsgCoinNotFound coin])
      else
        let ss' := list_remove coin ss in
        (set_cfg e (set_symbols config ss'), [MsgCoinRemoved coin ss'])
  else if startswith text_lower "/set_consensus " then
    match split text_original !! 1%nat ≫= int_of_str with
    | Some v =>
        if (v <? 1)%Z then (e, [MsgConsensusInvalid])
        else
          let old_value := default 1%Z (consensus_count config) in
          (set_cfg e (set_consensus_count config v),
           [MsgConsensusUpdated old_value v])
    | None => (e, [MsgConsensusInvalid])
    end
  else if startswith text_lower "/set_interval " then
    match split text_original !! 1%nat ≫= int_of_str with
    | Some v =>
        if (v <? 10)%Z || (600 <? v)%Z then (e, [MsgIntervalInvalid])
        else
          let old_value := default 12%Z (poll_seconds config) in
          (set_cfg e (set_poll_seconds config v),
           [MsgIntervalUpdated old_value v])
    | None => (e, [MsgIntervalInvalid])
    end
  else if String.eqb text_lower "/reload" ||
          String.eqb text_lower "/refresh" ||
          String.eqb text_lower "/update" then
    (set_force_check_flag e true,
     [MsgReloading; MsgReloadDone (length (wallets config))])
  else if String.eqb text "/last" || String.eqb text "/latest" then
    match wallets config with
    | [] => (e, [MsgLastQuerying; MsgNoWallets])
    | ws =>
        let consensus := cfg_consensus config in
        let sent :=
          flat_map (last_coin w e ws consensus) (cfg_coins config) in
        (e,
         [MsgLastQuerying] ++ map MsgSignal sent ++
         [match sent with
          | [] => MsgNoConsensus consensus
          | _ => MsgLastDone
          end])
    end
  else if String.eqb text "/status" then (e, [MsgStatus config])
  else if String.eqb text "/config" then (e, [MsgConfig config])
  else if String.eqb text "/stats" then
    (e, MsgStatsGenerating :: send_stats_report w e)
  else (e, [MsgUnrecognized]).

(** *** The Telegram listener *)

(** One entry of the [getUpdates] reply: the chat id and the text of its
    message, when it has a message with a text. *)
Record update : Type := { upd_message : option (string * string) }.

(** What the listener sends for an update: the replies of the command, or
    the refusal that quotes the sender's chat id. *)
Inductive listener_reply : Type :=
| Answer (m : tg_msg)
| AccessDenied (chat_id : string).

(** The body of [for update in updates] for the configured chat id
    [chat]; [w] is what the network answers while the command runs. *)
Definition listener_update (chat : string) (e : engine) (wu : world * update)
  : engine * list listener_reply :=
  match upd_message wu.2 with
  | Some (chat_id, text) =>
      if String.eqb chat_id chat then
        let '(e', ms) := process_telegram_command wu.1 text e in
        (e', map Answer ms)
      else (e, [AccessDenied chat_id])
  | None => (e, [])
  end.

Fixpoint listener_updates (chat : string) (e : engine)
    (l : list (world * update)) : engine * list listener_reply :=
  match l with
  | [] => (e, [])
  | wu :: rest =>
      let '(e1, r1) := listener_update chat e wu in
      let '(e2, r2) := listener_updates chat e1 rest in
      (e2, r1 ++ r2)
  end.

(** One batch of [telegram_listener]: nothing is read without a bot token
    and a chat id. *)
Definition telegram_listener (token chat : string) (e : engine)
    (l : list (world * update)) : engine * list listener_reply :=
  if String.eqb token "" || String.eqb chat "" then (e, [])
  else listener_updates chat e l.

End HL.

(** ** [app.py]: the [PATCH /config] endpoint *)
Module App.
Import Py HL.

(** A JSON value of the request body. *)
Inductive json : Type :=
| JNull
| JBool (b : bool)
| JInt (z : Z)
| JFloat (f : float)
| JStr (s : string)
| JList (l : list json)
| JObj (l : list (string * json)).

Section Patch.
(** [float(s)] on text: the interpreter's parser of float literals. *)
Variable float_of_str : string → option float.

(** [float(x)]; [None] stands for the exception. *)
Definition to_float (x : json) : option float :=
  match x with
  | JBool b => Some (if b then 1%float else 0%float)
  | JInt z => float_of_Z z
  | JFloat f => Some f
  | JStr s => float_of_str s
  | _ => None
  end.

Definition _to_int (x : json) (dflt : Z) : Z :=
  default dflt (to_float x ≫= int_of_float).

Definition _to_float (x : json) (dflt : float) : float :=
  default dflt (to_float x).

Definition _to_bool (x : json) : bool :=
  match x with
  | JStr s =>
      negb (bool_decide (lower (strip s) ∈ ["0"; "false"; "no"; "off"; ""]))
  | JNull => false
  | JBool b => b
  | JInt z => negb (z =? 0)%Z
  | JFloat f => truthy f
  | JList l => negb (bool_decide (l = []))
  | JObj l => negb (bool_decide (l = []))
  end.

(** [[s.strip() for s in v.split(",") if s.strip()]]. *)
Definition comma_list (v : string) : list json :=
  map JStr (List.filter (λ s, negb (String.eqb s ""))
              (map strip (split_on "," v))).

(** The list a ["wallets"] or ["symbols"] value is turned into. *)
Definition as_list (v : json) : list json :=
  match v with
  | JStr s => comma_list s
  | JList l => l
  | _ => []
  end.

(** [[w for w in v if _WALLET_RE.match(w)]]; an element that is not a
    string makes [re.match] raise. *)
Fixpoint keep_wallets (l : list json) : option (list string) :=
  match l with
  | [] => Some []
  | JStr w :: rest =>
      rest' ← keep_wallets rest;
      Some (if _WALLET_RE_match w then w :: rest' else rest')
  | _ :: _ => None
  end.

(** [[s.upper() for s in v]]; only strings have [upper]. *)
Fixpoint upper_all (l : list json) : option (list string) :=
  match l with
  | [] => Some []
  | JStr s :: rest => rest' ← upper_all rest; Some (upper s :: rest')
  | _ :: _ => None
  end.

(** One turn of [for k, v in patch.items()]. *)
Definition patch_item (current new_cfg : config) (kv : string * json)
  : option config :=
  let '(k, v) := kv in
  if String.eqb k "wallets" then
    ws ← keep_wallets (as_list v); Some (set_wallets new_cfg ws)
  else if String.eqb k "symbols" then
    ss ← upper_all (as_list v); Some (set_symbols new_cfg ss)
  else if String.eqb k "window_minutes" then
    Some {| wallets := wallets new_cfg; symbols := symbols new_cfg;
            window_minutes :=
              Some (_to_int v (default 0%Z (window_minutes current)));
            min_nocional_usd := min_nocional_usd new_cfg;
            poll_seconds := poll_seconds new_cfg;
            cooldown_minutes := cooldown_minutes new_cfg;
            consensus_count := consensus_count new_cfg;
            use_positions := use_positions new_cfg |}
  else if String.eqb k "poll_seconds" then
    Some (set_poll_seconds new_cfg
            (_to_int v (default 0%Z (poll_seconds current))))
  else if String.eqb k "cooldown_minutes" then
    Some {| wallets := wallets new_cfg; symbols := symbols new_cfg;
            window_minutes := window_minutes new_cfg;
            min_nocional_usd := min_nocional_usd new_cfg;
            poll_seconds := poll_seconds new_cfg;
            cooldown_minutes :=
              Some (_to_int v (default 0%Z (cooldown_minutes current)));
            consensus_count := consensus_count new_cfg;
            use_positions := use_positions new_cfg |}
  else if String.eqb k "consensus_count" then
    Some (set_consensus_count new_cfg
            (_to_int v (default 0%Z (consensus_count current))))
  else if String.eqb k "min_nocional_usd" then
    Some {| wallets := wallets new_cfg; symbols := symbols new_cfg;
            window_minutes := window_minutes new_cfg;
            min_nocional_usd :=
              Some (_to_float v (default 0%float (min_nocional_usd current)));
            poll_seconds := poll_seconds new_cfg;
            cooldown_minutes := cooldown_minutes new_cfg;
            consensus_count := consensus_count new_cfg;
            use_positions := use_positions new_cfg |}
  else if String.eqb k "use_positions" then
    Some {| wallets := wallets new_cfg; symbols := symbols new_cfg;
            window_minutes := window_minutes new_cfg;
            min_nocional_usd := min_nocional_usd new_cfg;
            poll_seconds := poll_seconds new_cfg;
            cooldown_minutes := cooldown_minutes new_cfg;
            consensus_count := consensus_count new_cfg;
            use_positions := Some (_to_bool v) |}
  else Some new_cfg.

Fixpoint patch_items (current new_cfg : config)
    (items : list (string * json)) : option config :=
  match items with
  | [] => Some new_cfg
  | kv :: rest =>
      c ← patch_item current new_cfg kv; patch_items current c rest
  end.

(** [patch_config]: the engine after the request.  When the handler
    raises, nothing has been stored and the engine is as before. *)
Definition patch_config (e : engine) (patch : list (string * json))
  : engine :=
  match patch_items (cfg e) (cfg e) patch with
  | Some new_cfg => set_cfg e new_cfg
  | None => e
  end.
End Patch.

(** *** Start-up and the websocket feed *)

(** [d.get(k)] on the items of a JSON object. *)
Definition json_get (k : string) (l : list (string * json)) : option json :=
  snd <$> List.find (λ kv, String.eqb kv.1 k) l.

(** [_normalize_cfg]. *)
Definition _normalize_cfg (raw : json) : json :=
  match raw with
  | JObj l =>
      match json_get "config" l with
      | Some (JObj _) => raw
      | _ => JObj [("config", raw)]
      end
  | _ => JObj [("config", JObj [])]
  end.

(** [cfg if "config" in cfg else {"config": cfg}] of
    [ConsensusEngine.__init__], on a dictionary. *)
Definition engine_init_cfg (cfg : list (string * json)) : list (string * json) :=
  match json_get "config" cfg with
  | Some _ => cfg
  | None => [("config", JObj cfg)]
  end.




Section Mids.
Variable float_of_str : string → option float.

(** [get_all_mids] on the reply [res] of the [allMids] request: the keys
    in upper case, the values that [float] accepts. *)
Definition get_all_mids (res : json) : gmap string float :=
  match res with
  | JObj l =>
      fold_left
        (λ out kv,
           match to_float float_of_str kv.2 with
           | Some f => <[upper kv.1 := f]> out
           | None => out
           end)
        l ∅
  | _ => ∅
  end.
End Mids.

End App.

(** ** Vocabulary of the properties *)
Module Props.
Import Py HL.

(** The symbol and side an outgoing event is about. *)
Definition event_about (ev : event) : option (string * position_side) :=
  match ev with
  | WsSignal s => Some (sig_coin s, sig_side s)
  | Telegram (MsgSignal s) => Some (sig_coin s, sig_side s)
  | Telegram _ => None
  end.

Definition about (coin : string) (sd : position_side) (ev : event) : Prop :=
  event_about ev = Some (coin, sd).

(** What dispatching a signal sends: the websocket callback first (when
    one is installed), then Telegram. *)
Definition dispatch_of (e : engine) (s : signal) : list event :=
  (if ws_callback e then [WsSignal s] else []) ++ [Telegram (MsgSignal s)].

(** [c] does not occur in [s]. *)
Definition free_of (c : ascii) (s : string) : bool :=
  all_chars (λ x, negb (Ascii.eqb x c)) s.

(** The last character of [s] is a blank. *)
Fixpoint ends_with_space (s : string) : bool :=
  match s with
  | EmptyString => false
  | String c EmptyString => is_space c
  | String _ r => ends_with_space r
  end.

(** The (address, rounded size) pair of a row that reports a size. *)
Definition rounded_pair (r : row) : option (string * dec4) :=
  z ← szi r; Some (addr r, round4 (fabs z)).

Definition rounded_pairs (rows : list row) : list (string * dec4) :=
  omap rounded_pair rows.

(** The same pair, for the rows the fingerprint counts: those whose size
    exceeds 0.0001 in magnitude. *)
Definition counted_pair (r : row) : option (string * dec4) :=
  z ← szi r;
  if fgt (fabs z) 0.0001 then Some (addr r, round4 (fabs z)) else None.

Definition counted_pairs (rows : list row) : list (string * dec4) :=
  omap counted_pair rows.

Definition datum_of_pair (p : string * dec4) : string :=
  p.1 +:+ ":" +:+ str_dec4 p.2.

(** The size the exchange reports for wallet [a] while [coin] is sampled. *)
Definition sampled_szi (w : world) (coin a : string) : option float :=
  d_szi (extract_pos_details (clearinghouse w coin a) coin).

(** The wallet/size composition of a side of a symbol in one cycle: the
    watched wallets on that side, in order, each with its size. *)
Definition composition (w : world) (ws : list string) (coin : string)
    (sd : position_side) : list (string * option float) :=
  map (λ a, (a, sampled_szi w coin a))
    (filter (λ a, side_of (sampled_szi w coin a) = Some sd) ws).

Definition row_composition (rows : list row) : list (string * option float) :=
  map (λ r, (addr r, szi r)) rows.

(** The fingerprint as a function of symbol, side and composition. *)
Definition bare_row (p : string * option float) : row :=
  {| addr := p.1; szi := p.2; side := None; entry := None; mark := None;
     liq := None; value := None; upnl := None; opened_at := None |}.

Definition fingerprint (coin : string) (sd : position_side)
    (comp : list (string * option float)) : string :=
  _get_signal_key (make_signal coin sd 0 "" false (map bare_row comp)).

(** In the cycle run on [w] from [e], side [sd] of [coin] is below the
    threshold. *)
Definition below_threshold (w : world) (e : engine) (coin : string)
    (sd : position_side) : Prop :=
  (Z.of_nat (length (composition w (wallets (cfg e)) coin sd))
   < cfg_consensus (cfg e))%Z.

(** Successive poll cycles; before each one, [g] stands for what the
    command channel did to the engine in the meantime. *)
Fixpoint run_cycles (e : engine) (steps : list ((engine → engine) * world))
  : engine :=
  match steps with
  | [] => e
  | (g, w) :: rest => run_cycles (loop_iteration w (g e)).1 rest
  end.

(** Every cycle of [steps] finds side [sd] of [coin] below the threshold,
    and nothing but the poll loop touches the stored fingerprints. *)
Fixpoint quiet_cycles (coin : string) (sd : position_side) (e : engine)
    (steps : list ((engine → engine) * world)) : Prop :=
  match steps with
  | [] => True
  | (g, w) :: rest =>
      last_signals (g e) = last_signals e ∧
      below_threshold w (g e) coin sd ∧
      quiet_cycles coin sd (loop_iteration w (g e)).1 rest
  end.

(** Between [e] and [e'] the fingerprint stored for [(coin, sd)] stayed
    as it was and nothing in [evs] is about that pair. *)
Definition key_kept (coin : string) (sd : position_side)
    (e e' : engine) (evs : list event) : Prop :=
  last_signals e' !! dedup_key coin sd = last_signals e !! dedup_key coin sd ∧
  Forall (λ ev, ¬ about coin sd ev) evs.

(** Between [e] and [e'] the fingerprint stored for [(coin, sd)] became
    [fp], which it was not before, and [evs] holds an event about the
    pair. *)
Definition key_set (coin : string) (sd : position_side) (fp : string)
    (e e' : engine) (evs : list event) : Prop :=
  last_signals e !! dedup_key coin sd ≠ Some fp ∧
  last_signals e' !! dedup_key coin sd = Some fp ∧
  Exists (about coin sd) evs.

Fixpoint last_char (s : string) : option ascii :=
  match s with
  | EmptyString => None
  | String c EmptyString => Some c
  | String _ r => last_char r
  end.



(** [s] has no blank. *)
Definition blank_free (s : string) : bool :=
  all_chars (λ c, negb (is_space c)) s.

Fixpoint hex_exact (n : nat) (s : string) : bool :=
  match n, s with
  | O, EmptyString => true
  | S n', String c r => is_hex_char c && hex_exact n' r
  | _, _ => false
  end.

(** The address format: ["0x"] followed by exactly forty hexadecimal
    digits. *)
Definition is_wallet_address (s : string) : bool :=
  match s with
  | String c1 (String c2 r) =>
      Ascii.eqb c1 "0" && Ascii.eqb c2 "x" && hex_exact 40 r
  | _ => false
  end.

(** [v] is the address [w] with the case of at least one hexadecimal
    letter changed. *)
Definition hex_case_variant (w v : string) : Prop :=
  ∃ h h', w = "0x" +:+ h ∧ v = "0x" +:+ h' ∧ lower h' = lower h ∧ h' ≠ h.

(** The text [text] is an [/add_wallet] command. *)
Definition is_add_wallet (text : string) : Prop :=
  startswith (lower (strip text)) "/add_wallet " = true.



(** A configuration as the command channel builds it: threshold at least
    1, poll interval between 10 and 600 seconds, wallets of the address
    format without repetition, symbols in upper case without repetition. *)
Definition well_formed_config (c : config) : Prop :=
  (1 ≤ cfg_consensus c)%Z ∧
  (10 ≤ cfg_poll_seconds c ≤ 600)%Z ∧
  Forall (λ a, is_wallet_address a = true) (wallets c) ∧
  NoDup (wallets c) ∧
  Forall (λ s, upper s = s) (default [] (symbols c)) ∧
  NoDup (default [] (symbols c)).


(** The engine parts a poll cycle never writes. *)
Definition same_settings (e e' : engine) : Prop :=
  cfg e' = cfg e ∧ ws_callback e' = ws_callback e ∧ running e' = running e.



(** Two signals report the same consensus: symbol, side, count,
    threshold, and the same wallets with the same sizes, so the same
    fingerprint; prices, values and first-seen times may differ. *)
Definition same_consensus (s s' : signal) : Prop :=
  sig_coin s = sig_coin s' ∧ sig_side s = sig_side s' ∧
  sig_count s = sig_count s' ∧ sig_threshold s = sig_threshold s' ∧
  row_composition (sig_wallet_rows s) = row_composition (sig_wallet_rows s') ∧
  _get_signal_key s = _get_signal_key s'.

(** The update is a text message from chat [chat]. *)
Definition from_chat (chat : string) (wu : world * update) : bool :=
  match upd_message wu.2 with
  | Some (chat_id, _) => String.eqb chat_id chat
  | None => false
  end.

(** The refusal sent for a text message, quoting the sender's chat id. *)
Definition refusal (wu : world * update) : list listener_reply :=
  match upd_message wu.2 with
  | Some (chat_id, _) => [AccessDenied chat_id]
  | None => []
  end.

(** The keys [PATCH /config] acts on. *)
Definition patch_key (k : string) : bool :=
  existsb (String.eqb k)
    ["wallets"; "symbols"; "window_minutes"; "poll_seconds";
     "cooldown_minutes"; "consensus_count"; "min_nocional_usd";
     "use_positions"].

(** The details of one position. *)
Definition details_of (p : asset_position) : pos_details :=
  {| d_szi := pos_szi p; d_entryPx := pos_entryPx p;
     d_liqPx := pos_liqPx p |}.

(** The signal of side [sd] of [coin] in the cycle run on [w] from [e]
    that leaves the first-seen table [stamps]: the watched wallets on
    that side, in the order of the wallet list. *)
Definition side_signal (w : world) (e : engine)
    (stamps : gmap string string) (coin : string) (sd : position_side)
  : signal :=
  make_signal coin sd (cfg_consensus (cfg e)) (now w)
    (cfg_use_positions (cfg e))
    (side_rows sd (map (last_row w coin stamps) (wallets (cfg e)))).




End Props.

(** ** Sample data *)
Module Sample.
Import Py HL.

Definition w1 : string := "0x1111111111111111111111111111111111111111".
Definition w2 : string := "0x2222222222222222222222222222222222222222".
Definition w3 : string := "0xabcdefabcdefabcdefabcdefabcdefabcdefabcd".
Definition w3_upper : string := "0xABCDEFABCDEFABCDEFABCDEFABCDEFABCDEFABCD".

(** A wallet holding [z] of [coin], entered at [e]. *)
Definition holding (coin : string) (z e : float) : list asset_position :=
  [{| pos_coin := coin; pos_szi := Some z; pos_entryPx := Some e;
      pos_liqPx := None |}].

(** An exchange on which the wallets of [book] hold the given sizes of
    BTC, entered at 60000, with BTC quoted at 61000. *)
Definition market (book : list (string * float)) : world :=
  {| mids := {[ "BTC" := 61000%float ]};
     clearinghouse := λ _ a,
       match List.find (λ p, String.eqb p.1 a) book with
       | Some p => holding "BTC" p.2 60000
       | None => []
       end;
     now := "2025-01-01 00:00:00" |}.

Definition config0 (ws : list string) (threshold : Z) : config :=
  {| wallets := ws; symbols := Some ["BTC"];
     window_minutes := Some 5%Z; min_nocional_usd := Some 10000%float;
     poll_seconds := Some 12%Z; cooldown_minutes := Some 10%Z;
     consensus_count := Some threshold; use_positions := Some true |}.

(** A freshly started engine. *)
Definition engine0 (ws : list string) (threshold : Z) : engine :=
  {| cfg := config0 ws threshold; ws_callback := true;
     last_signals := ∅; force_check_flag := false;
     last_positions := ∅; position_timestamps := ∅; running := true |}.

(** The rows the poll loop builds for BTC on [market book]. *)
Definition btc_rows (ws : list string) (book : list (string * float))
  : list row :=
  (loop_rows (market book) "BTC" ∅ ws).2.

(** The long candidate of those rows at threshold 1. *)
Definition btc_long (ws : list string) (book : list (string * float))
  : signal :=
  make_signal "BTC" Long 1 "2025-01-01 00:00:00" true
    (side_rows Long (btc_rows ws book)).

(** Two wallets long, listed in either order, the first one holding a
    size at the edge of what the fingerprint counts. *)
Definition sig_edge_above : signal :=
  btc_long [w1; w2] [(w1, 0.00011%float); (w2, 1%float)].
Definition sig_edge_at : signal :=
  btc_long [w2; w1] [(w1, 0.0001%float); (w2, 1%float)].

(** The same two wallets with ordinary sizes, in either order. *)
Definition sig_12 : signal :=
  btc_long [w1; w2] [(w1, 0.5%float); (w2, 1%float)].
Definition sig_21 : signal :=
  btc_long [w2; w1] [(w1, 0.5%float); (w2, 1%float)].



(** An exchange on which [w1] holds 1 BTC with no entry price reported. *)
Definition market_no_entry : world :=
  {| mids := {[ "BTC" := 61000%float ]};
     clearinghouse := λ _ _,
       [{| pos_coin := "BTC"; pos_szi := Some 1%float; pos_entryPx := None;
           pos_liqPx := None |}];
     now := "2025-01-01 00:00:00" |}.

(** An exchange that reports a BTC position of size zero. *)
Definition market_zero_size : world := market [(w1, 0%float)].

(** Three cycles for two wallets at threshold 2: both long; then the
    second wallet flat (twice, with a [/status] command in between); then
    both long again with the sizes of the first cycle. *)
Definition both_long : world := market [(w1, 0.5%float); (w2, 1%float)].
Definition one_long : world := market [(w1, 0.5%float)].

Definition status_command (e : engine) : engine :=
  (process_telegram_command one_long "/status" e).1.

Definition quiet_steps : list ((engine → engine) * world) :=
  [(id, one_long); (status_command, one_long)].

(** One wallet long and one short, at threshold 1. *)
Definition long_and_short : world :=
  market [(w1, 0.5%float); (w2, (-0.5)%float)].

(** [both_long] five minutes later: the same positions at another
    price. *)
Definition both_long_later : world :=
  {| mids := {[ "BTC" := 65000%float ]};
     clearinghouse := clearinghouse both_long;
     now := "2025-01-01 00:05:00" |}.



End Sample.

Import Py HL App Props.

(** ** Consensus detection *)

Section Detection.
Variables (coin ts : string) (T : Z) (up : bool) (rows : list row).

Let long_signal := make_signal coin Long T ts up (side_rows Long rows).
Let short_signal := make_signal coin Short T ts up (side_rows Short rows).

Lemma signals_to_send_cases :
  signals_to_send coin T ts up rows =
    (if (T <=? Z.of_nat (length (side_rows Long rows)))%Z
     then [long_signal] else []) ++
    (if (T <=? Z.of_nat (length (side_rows Short rows)))%Z
     then [short_signal] else []).
Proof. reflexivity. Qed.

Lemma elem_of_signals_to_send (s : signal) :
  s ∈ signals_to_send coin T ts up rows ↔
    (s = long_signal ∧ (T ≤ Z.of_nat (length (side_rows Long rows)))%Z) ∨
    (s = short_signal ∧ (T ≤ Z.of_nat (length (side_rows Short rows)))%Z).
Proof.
  rewrite signals_to_send_cases, elem_of_app.
  destruct (Z.leb_spec T (Z.of_nat (length (side_rows Long rows))));
    destruct (Z.leb_spec T (Z.of_nat (length (side_rows Short rows))));
    rewrite ?list_elem_of_singleton, ?elem_of_nil; intuition lia.
Qed.

(** C1: a candidate signal for side [sd] is produced exactly when the
    number of rows whose side is [sd] reaches the threshold (whatever the
    threshold, so in particular for [T >= 1]); the signal carries that
    count and those rows; and when both sides reach the threshold the
    cycle produces two signals, the long one then the short one. *)
Theorem candidate_iff_count_reaches_threshold :
  (∀ sd : position_side,
     let n := length (filter (λ r, side r = Some sd) rows) in
     ((∃ s, s ∈ signals_to_send coin T ts up rows ∧ sig_side s = sd) ↔
      (T ≤ Z.of_nat n)%Z) ∧
     (∀ s, s ∈ signals_to_send coin T ts up rows → sig_side s = sd →
        sig_coin s = coin ∧ sig_count s = Z.of_nat n ∧
        sig_threshold s = T ∧
        sig_wallet_rows s = filter (λ r, side r = Some sd) rows)) ∧
  ((T ≤ Z.of_nat (length (filter (λ r, side r = Some Long) rows)))%Z →
   (T ≤ Z.of_nat (length (filter (λ r, side r = Some Short) rows)))%Z →
   signals_to_send coin T ts up rows = [long_signal; short_signal]).
Proof.
  split.
  - intros sd n. split.
    + split.
      * intros (s & Hs & Hsd). apply elem_of_signals_to_send in Hs.
        destruct Hs as [[-> Hle]|[-> Hle]]; simpl in Hsd; subst sd; exact Hle.
      * intros Hle. destruct sd.
        -- exists long_signal. split; [|done].
           apply elem_of_signals_to_send. by left.
        -- exists short_signal. split; [|done].
           apply elem_of_signals_to_send. by right.
    + intros s Hs Hsd. apply elem_of_signals_to_send in Hs.
      destruct Hs as [[-> _]|[-> _]]; simpl in Hsd; subst sd; done.
  - intros HL HS. rewrite signals_to_send_cases.
    fold (side_rows Long rows) in HL. fold (side_rows Short rows) in HS.
    apply Z.leb_le in HL, HS. by rewrite HL, HS.
Qed.
End Detection.

(** ** Facts about strings *)

Section StringFacts.

Lemma str_app_nil (s : string) : "" +:+ s = s.
Proof. reflexivity. Qed.

Lemma str_app_cons (a : ascii) (s t : string) :
  String a s +:+ t = String a (s +:+ t).
Proof. reflexivity. Qed.

Lemma str_app_nil_r (s : string) : s +:+ "" = s.
Proof. induction s as [|a s IH]; [done|]. by rewrite str_app_cons, IH. Qed.

Lemma str_app_assoc (s t u : string) : (s +:+ t) +:+ u = s +:+ (t +:+ u).
Proof.
  induction s as [|a s IH]; [done|]. by rewrite !str_app_cons, IH.
Qed.

Lemma all_chars_app (p : ascii → bool) (s t : string) :
  all_chars p (s +:+ t) = all_chars p s && all_chars p t.
Proof.
  induction s as [|a s IH]; [done|].
  rewrite str_app_cons. simpl. rewrite IH. by destruct (p a).
Qed.

Lemma all_chars_impl (p q : ascii → bool) (s : string) :
  (∀ c, p c = true → q c = true) →
  all_chars p s = true → all_chars q s = true.
Proof.
  intros Hpq. induction s as [|a s IH]; [done|]. simpl.
  intros [Ha Hs]%andb_true_iff. rewrite (Hpq _ Ha). simpl. auto.
Qed.



Lemma str_app_inv_tail (s t u : string) : s +:+ u = t +:+ u → s = t.
Proof.
  intros H.
  assert (Hlen : String.length s = String.length t).
  { apply (f_equal String.length) in H.
    assert (Hl : ∀ a b, String.length (a +:+ b) =
                        (String.length a + String.length b)%nat).
    { intros a b. induction a as [|x a IH]; [done|].
      rewrite str_app_cons. simpl. by rewrite IH. }
    rewrite !Hl in H. lia. }
  revert t H Hlen. induction s as [|a s IH]; intros [|b t]; try done.
  rewrite !str_app_cons. intros [= -> H] [= Hlen]. f_equal. by apply IH.
Qed.


End StringFacts.

(** ** Facts about the text of numbers *)

Section NumberText.

Lemma pretty_N_char_digit (k : N) : is_digit_char (pretty_N_char k) = true.
Proof. unfold pretty_N_char. by repeat case_match. Qed.

Lemma pretty_N_go_digits (x : N) (s : string) :
  ∃ d, pretty_N_go x s = d +:+ s ∧ all_chars is_digit_char d = true ∧
       ((0 < x)%N → d ≠ "").
Proof.
  revert s. induction (N.lt_wf_0 x) as [x _ IH]. intros s.
  destruct (decide (x = 0%N)) as [->|Hx].
  - exists "". rewrite pretty_N_go_0. split_and!; [done|done|lia].
  - rewrite pretty_N_go_step by lia.
    destruct (IH (x `div` 10)%N (N.div_lt x 10 ltac:(lia) eq_refl)
                (String (pretty_N_char (x `mod` 10)) s)) as (d & -> & Hd & _).
    exists (d +:+ String (pretty_N_char (x `mod` 10)) "").
    split_and!.
    + by rewrite str_app_assoc, str_app_cons, str_app_nil.
    + rewrite all_chars_app, Hd. simpl. by rewrite pretty_N_char_digit.
    + intros _. destruct d; done.
Qed.

(** The decimal text of a natural number: digits, at least one. *)
Lemma pretty_N_shape (x : N) :
  ∃ c r, pretty x = String c r ∧ is_digit_char c = true ∧
         all_chars is_digit_char r = true.
Proof.
  unfold pretty, pretty_N. case_decide as Hx.
  - by exists "0"%char, "".
  - destruct (pretty_N_go_digits x "") as (d & -> & Hd & Hne).
    rewrite str_app_nil_r. destruct d as [|c r]; [by destruct Hne; [lia|]|].
    simpl in Hd. apply andb_true_iff in Hd as [? ?]. by exists c, r.
Qed.

Lemma pretty_N_digits (x : N) : all_chars is_digit_char (pretty x) = true.
Proof.
  destruct (pretty_N_shape x) as (c & r & -> & Hc & Hr). simpl.
  by rewrite Hc, Hr.
Qed.










End NumberText.

(** ** The fingerprint *)

Section Fingerprint.

Lemma wallet_datum_pair (r : row) :
  wallet_datum r = datum_of_pair <$> counted_pair r.
Proof.
  unfold wallet_datum, counted_pair. destruct (szi r) as [z|]; [|done].
  simpl. by destruct (fgt (fabs z) 0.0001).
Qed.

Lemma wallet_data_pairs (rows : list row) :
  wallet_data rows = datum_of_pair <$> counted_pairs rows.
Proof.
  unfold wallet_data, counted_pairs.
  induction rows as [|r rows IH]; [done|]. simpl.
  rewrite wallet_datum_pair. destruct (counted_pair r); simpl; by f_equal.
Qed.


Lemma sorted_Permutation (l : list string) : sorted l ≡ₚ l.
Proof. apply merge_sort_Permutation. Qed.

(** Sorting forgets the order of its input. *)
Lemma sorted_perm_eq (l1 l2 : list string) : l1 ≡ₚ l2 → sorted l1 = sorted l2.
Proof.
  intros Hp. apply (Sorted_unique String.le).
  - apply Sorted_merge_sort, _.
  - apply Sorted_merge_sort, _.
  - by rewrite !sorted_Permutation.
Qed.







End Fingerprint.

(** ** Deduplication *)

Section Dedup.

Lemma process_signal_new (coin : string) (e : engine) (s : signal) :
  last_signals e !! dedup_key coin (sig_side s) = None →
  process_signal coin e s =
    (set_last_signals e
       (<[dedup_key coin (sig_side s) := _get_signal_key s]> (last_signals e)),
     dispatch_of e s).
Proof.
  intros Hk. unfold process_signal, _has_signal_changed. by rewrite Hk.
Qed.

Lemma process_signal_changed (coin : string) (e : engine) (s : signal)
    (old : string) :
  last_signals e !! dedup_key coin (sig_side s) = Some old →
  _get_signal_key s ≠ old →
  process_signal coin e s =
    (set_last_signals e
       (<[dedup_key coin (sig_side s) := _get_signal_key s]> (last_signals e)),
     dispatch_of e s).
Proof.
  intros Hk Hne. unfold process_signal, _has_signal_changed. rewrite Hk.
  by apply String.eqb_neq in Hne as ->.
Qed.

Lemma process_signal_unchanged (coin : string) (e : engine) (s : signal) :
  last_signals e !! dedup_key coin (sig_side s) = Some (_get_signal_key s) →
  process_signal coin e s = (e, []).
Proof.
  intros Hk. unfold process_signal, _has_signal_changed. rewrite Hk.
  by rewrite String.eqb_refl.
Qed.

(** Whatever was stored before, once a signal has been processed its key
    is the stored one. *)
Lemma process_signal_stored (coin : string) (e : engine) (s : signal) :
  last_signals (process_signal coin e s).1 !! dedup_key coin (sig_side s)
  = Some (_get_signal_key s).
Proof.
  unfold process_signal, _has_signal_changed.
  destruct (last_signals e !! dedup_key coin (sig_side s)) as [old|] eqn:Hk;
    simpl.
  - destruct (String.eqb_spec (_get_signal_key s) old) as [->|]; simpl;
      [done|by rewrite lookup_insert_eq].
  - by rewrite lookup_insert_eq.
Qed.




(** C3 (amended): two signals for the same symbol and side whose rows,
    among those with a size above 0.0001 in magnitude, carry the same
    multiset of (address, size rounded to 4 decimal places) pairs have
    the same fingerprint, whatever the order of the rows. *)
Theorem fingerprint_stable_under_reordering (s1 s2 : signal) :
  sig_coin s1 = sig_coin s2 →
  sig_side s1 = sig_side s2 →
  counted_pairs (sig_wallet_rows s1) ≡ₚ counted_pairs (sig_wallet_rows s2) →
  _get_signal_key s1 = _get_signal_key s2.
Proof.
  intros Hc Hs Hp. unfold _get_signal_key. rewrite Hc, Hs.
  rewrite !wallet_data_pairs.
  assert (Hd : datum_of_pair <$> counted_pairs (sig_wallet_rows s1) ≡ₚ
               datum_of_pair <$> counted_pairs (sig_wallet_rows s2))
    by by apply fmap_Permutation.
  by rewrite (sorted_perm_eq _ _ Hd), (Permutation_length Hd).
Qed.

(** The same two wallets sampled in the two possible orders. *)
Lemma fingerprint_stable_witness :
  sig_wallet_rows Sample.sig_12 ≠ sig_wallet_rows Sample.sig_21 ∧
  _get_signal_key Sample.sig_12 = _get_signal_key Sample.sig_21.
Proof.
  split.
  - intros H. vm_compute in H. discriminate H.
  - apply (fingerprint_stable_under_reordering Sample.sig_12 Sample.sig_21).
    + reflexivity.
    + reflexivity.
    + vm_compute. apply perm_swap.
Defined.

(** C3 as stated fails at the edge of what the fingerprint counts:
    0.00011 and 0.0001 both round to 0.0001, so the two signals carry the
    same (address, rounded size) pairs in different orders, but only the
    first size is counted. *)
Lemma fingerprint_differs_at_dust_edge :
  sig_coin Sample.sig_edge_above = sig_coin Sample.sig_edge_at ∧
  sig_side Sample.sig_edge_above = sig_side Sample.sig_edge_at ∧
  rounded_pairs (sig_wallet_rows Sample.sig_edge_above) ≡ₚ
    rounded_pairs (sig_wallet_rows Sample.sig_edge_at) ∧
  map addr (sig_wallet_rows Sample.sig_edge_above) = [Sample.w1; Sample.w2] ∧
  map addr (sig_wallet_rows Sample.sig_edge_at) = [Sample.w2; Sample.w1] ∧
  _get_signal_key Sample.sig_edge_above =
    "BTC:long:2:" +:+ Sample.w1 +:+ ":0.0001," +:+ Sample.w2 +:+ ":1.0" ∧
  _get_signal_key Sample.sig_edge_at =
    "BTC:long:1:" +:+ Sample.w2 +:+ ":1.0" ∧
  _get_signal_key Sample.sig_edge_above ≠ _get_signal_key Sample.sig_edge_at.
Proof.
  split_and!; try (vm_compute; reflexivity).
  - vm_compute. apply perm_swap.
  - intros H. vm_compute in H. discriminate H.
Qed.

End Dedup.

(** ** The poll cycle *)

Section PollCycle.

Lemma last_char_app (s t : string) :
  t ≠ "" → last_char (s +:+ t) = last_char t.
Proof.
  intros Ht. induction s as [|a s IH]; [done|]. rewrite str_app_cons.
  simpl. rewrite IH. destruct (s +:+ t) eqn:Hst; [|done].
  destruct s; [|done]. by rewrite str_app_nil in Hst.
Qed.

(** Distinct (symbol, side) pairs have distinct keys in [last_signals]. *)
Lemma dedup_key_inj (c c' : string) (sd sd' : position_side) :
  dedup_key c sd = dedup_key c' sd' → c = c' ∧ sd = sd'.
Proof.
  unfold dedup_key. intros H.
  assert (sd = sd') as <-.
  { apply (f_equal last_char) in H.
    rewrite !last_char_app in H by by destruct sd, sd'.
    by destruct sd, sd'. }
  split; [|done]. by apply str_app_inv_tail in H.
Qed.

Lemma wallet_data_bare (rows : list row) :
  wallet_data (map bare_row (row_composition rows)) = wallet_data rows.
Proof.
  unfold wallet_data, row_composition.
  induction rows as [|r rows IH]; [done|]. cbn -[wallet_datum].
  change (wallet_datum (bare_row (addr r, szi r))) with (wallet_datum r).
  by rewrite IH.
Qed.

(** The key of a signal is the fingerprint of its composition. *)
Lemma key_fingerprint (s : signal) :
  _get_signal_key s =
    fingerprint (sig_coin s) (sig_side s) (row_composition (sig_wallet_rows s)).
Proof.
  unfold fingerprint, _get_signal_key. simpl. by rewrite wallet_data_bare.
Qed.

Lemma loop_row_fields (w : world) (coin : string)
    (stamps : gmap string string) (a : string) :
  let r := (loop_row w coin stamps a).2 in
  addr r = a ∧ szi r = sampled_szi w coin a ∧
  side r = side_of (sampled_szi w coin a).
Proof. done. Qed.

Lemma loop_rows_cons (w : world) (coin : string)
    (stamps : gmap string string) (a : string) (ws : list string) :
  (loop_rows w coin stamps (a :: ws)).2 =
    (loop_row w coin stamps a).2 ::
    (loop_rows w coin (loop_row w coin stamps a).1 ws).2.
Proof.
  cbn -[loop_row]. destruct (loop_row w coin stamps a) as [stamps1 r].
  cbn. by destruct (loop_rows w coin stamps1 ws).
Qed.

(** The rows of a side, as sampled by the loop, are the composition. *)
Lemma loop_rows_composition (w : world) (coin : string)
    (stamps : gmap string string) (ws : list string) (sd : position_side) :
  row_composition (side_rows sd (loop_rows w coin stamps ws).2) =
    composition w ws coin sd.
Proof.
  unfold row_composition, composition, side_rows.
  revert stamps. induction ws as [|a ws IH]; intros stamps; [done|].
  rewrite loop_rows_cons, !filter_cons.
  destruct (loop_row_fields w coin stamps a) as (Ha & Hz & Hs).
  rewrite Hs.
  destruct (decide (side_of (sampled_szi w coin a) = Some sd));
    cbn -[loop_row]; by rewrite ?Ha, ?Hz, IH.
Qed.

Lemma process_signals_app (coin : string) (e : engine) (l1 l2 : list signal) :
  process_signals coin e (l1 ++ l2) =
    let r1 := process_signals coin e l1 in
    let r2 := process_signals coin r1.1 l2 in
    (r2.1, r1.2 ++ r2.2).
Proof.
  revert e. induction l1 as [|s l1 IH]; intros e; simpl.
  - by destruct (process_signals coin e l2).
  - destruct (process_signal coin e s) as [e1 ev1]. rewrite IH. simpl.
    destruct (process_signals coin e1 l1) as [e2 ev2]. simpl.
    destruct (process_signals coin e2 l2) as [e3 ev3]. simpl.
    by rewrite app_assoc.
Qed.

Lemma process_signals_one (coin : string) (e : engine) (s : signal) :
  process_signals coin e [s] = process_signal coin e s.
Proof.
  simpl. destruct (process_signal coin e s) as [e1 ev1].
  by rewrite app_nil_r.
Qed.

Lemma dispatch_of_about (e : engine) (s : signal) :
  Forall (about (sig_coin s) (sig_side s)) (dispatch_of e s).
Proof. unfold dispatch_of. destruct (ws_callback e); repeat constructor. Qed.

(** What processing one signal does: nothing, or a dispatch that stores
    the new key. *)
Lemma process_signal_cases (coin : string) (e : engine) (s : signal) :
  let k := dedup_key coin (sig_side s) in
  (last_signals e !! k = Some (_get_signal_key s) ∧
   process_signal coin e s = (e, [])) ∨
  (last_signals e !! k ≠ Some (_get_signal_key s) ∧
   process_signal coin e s =
     (set_last_signals e (<[k := _get_signal_key s]> (last_signals e)),
      dispatch_of e s)).
Proof.
  intros k. destruct (last_signals e !! k) as [old|] eqn:Hk.
  - destruct (decide (_get_signal_key s = old)) as [<-|Hne].
    + left. split; [done|]. by apply process_signal_unchanged.
    + right. split; [congruence|]. by eapply process_signal_changed.
  - right. split; [done|]. by apply process_signal_new.
Qed.

Section KeySteps.
Variables (C : string) (S : position_side).

Lemma key_kept_refl (e : engine) : key_kept C S e e [].
Proof. by split. Qed.

Lemma key_kept_trans (e e1 e2 : engine) (ev1 ev2 : list event) :
  key_kept C S e e1 ev1 → key_kept C S e1 e2 ev2 →
  key_kept C S e e2 (ev1 ++ ev2).
Proof.
  intros [H1 F1] [H2 F2]. split; [congruence|by apply Forall_app].
Qed.

Lemma key_kept_set (fp : string) (e e1 e2 : engine) (ev1 ev2 : list event) :
  key_kept C S e e1 ev1 → key_set C S fp e1 e2 ev2 →
  key_set C S fp e e2 (ev1 ++ ev2).
Proof.
  intros [H1 _] (H2 & H3 & H4). split_and!; [congruence..|].
  apply Exists_app. by right.
Qed.

Lemma key_set_kept (fp : string) (e e1 e2 : engine) (ev1 ev2 : list event) :
  key_set C S fp e e1 ev1 → key_kept C S e1 e2 ev2 →
  key_set C S fp e e2 (ev1 ++ ev2).
Proof.
  intros (H1 & H2 & H4) [H3 _]. split_and!; [congruence..|].
  apply Exists_app. by left.
Qed.

Lemma key_set_set (fp : string) (e e1 e2 : engine) (ev1 ev2 : list event) :
  key_set C S fp e e1 ev1 → key_set C S fp e1 e2 ev2 → False.
Proof. intros (_ & H1 & _) (H2 & _). done. Qed.

Lemma not_about_other (s : signal) (e : engine) :
  (sig_coin s, sig_side s) ≠ (C, S) →
  Forall (λ ev, ¬ about C S ev) (dispatch_of e s).
Proof.
  intros Hne. eapply Forall_impl; [apply dispatch_of_about|].
  unfold about. intros ev H1 H2. congruence.
Qed.

(** One signal of the loop, seen from the key of [(C, S)]. *)
Lemma process_signal_key (coin : string) (e : engine) (s : signal) :
  sig_coin s = coin →
  let r := process_signal coin e s in
  key_kept C S e r.1 r.2 ∨
  (coin = C ∧ sig_side s = S ∧ key_set C S (_get_signal_key s) e r.1 r.2).
Proof.
  intros Hcoin r. subst r.
  destruct (process_signal_cases coin e s) as [[_ ->]|[Hne ->]]; simpl.
  { left. apply key_kept_refl. }
  destruct (decide ((coin, sig_side s) = (C, S))) as [[= -> <-]|Hother].
  - right. split_and!; [done..|]. split_and!; [done| |]; simpl.
    + by rewrite lookup_insert_eq.
    + unfold dispatch_of. apply Exists_app. right. constructor.
      unfold about. simpl. by rewrite Hcoin.
  - left. split; simpl.
    + apply lookup_insert_ne. intros [<- <-]%dedup_key_inj. done.
    + apply not_about_other. by rewrite Hcoin.
Qed.

(** The long or the short half of [signals_to_send]. *)
Lemma process_half_key (coin : string) (e : engine) (s : signal) (b : bool) :
  sig_coin s = coin →
  let r := process_signals coin e (if b then [s] else []) in
  key_kept C S e r.1 r.2 ∨
  (coin = C ∧ sig_side s = S ∧ b = true ∧
   key_set C S (_get_signal_key s) e r.1 r.2).
Proof.
  intros Hcoin. destruct b; simpl.
  - destruct (process_signal_key coin e s Hcoin) as [Hk|(? & ? & ?)];
      destruct (process_signal coin e s) as [e1 ev1]; simpl in *;
      rewrite ?app_nil_r; auto.
  - left. apply key_kept_refl.
Qed.

Variables (w : world) (ws : list string) (T : Z) (up : bool).

Let fp := fingerprint C S (composition w ws C S).
Let reached := (T ≤ Z.of_nat (length (composition w ws C S)))%Z.

Lemma side_signal_key (coin : string) (stamps : gmap string string)
    (sd : position_side) :
  let s := make_signal coin sd T (now w) up
             (side_rows sd (loop_rows w coin stamps ws).2) in
  _get_signal_key s = fingerprint coin sd (composition w ws coin sd) ∧
  length (side_rows sd (loop_rows w coin stamps ws).2) =
    length (composition w ws coin sd).
Proof.
  intros s. split.
  - rewrite key_fingerprint. simpl. by rewrite loop_rows_composition.
  - rewrite <-(loop_rows_composition w coin stamps ws sd).
    unfold row_composition. by rewrite length_map.
Qed.

(** One symbol of the cycle, seen from the key of [(C, S)]. *)
Lemma loop_coin_key (e : engine) (coin : string) :
  let r := loop_coin w ws T up e coin in
  key_kept C S e r.1 r.2 ∨ (reached ∧ key_set C S fp e r.1 r.2).
Proof.
  unfold loop_coin.
  destruct (loop_rows w coin (position_timestamps e) ws) as [stamps rows]
    eqn:Hrows.
  set (e2 := set_last_positions _ _).
  assert (Hkeep : ∀ e' ev, key_kept C S e2 e' ev → key_kept C S e e' ev)
    by done.
  assert (Hset : ∀ f e' ev, key_set C S f e2 e' ev → key_set C S f e e' ev)
    by done.
  rewrite signals_to_send_cases, process_signals_app. cbn zeta.
  pose proof (side_signal_key coin (position_timestamps e) Long) as [HkL HnL].
  pose proof (side_signal_key coin (position_timestamps e) Short) as [HkS HnS].
  rewrite Hrows in HkL, HnL, HkS, HnS. simpl in HkL, HnL, HkS, HnS.
  set (sL := make_signal coin Long T (now w) up (side_rows Long rows)) in *.
  set (sS := make_signal coin Short T (now w) up (side_rows Short rows)) in *.
  set (bL := (T <=? Z.of_nat (length (side_rows Long rows)))%Z).
  set (bS := (T <=? Z.of_nat (length (side_rows Short rows)))%Z).
  destruct (process_half_key coin e2 sL bL eq_refl) as [K1|(-> & HS1 & Hb1 & K1)].
  - destruct (process_half_key coin
                (process_signals coin e2 (if bL then [sL] else [])).1
                sS bS eq_refl) as [K2|(-> & HS2 & Hb2 & K2)].
    + left. simpl. apply Hkeep. by eapply key_kept_trans.
    + right. simpl. simpl in HS2. unfold reached, fp.
      rewrite HS2 in HnS, HkS. split.
      * rewrite <-HnS, <-HS2. by apply Z.leb_le.
      * apply Hset. eapply key_kept_set; [done|]. by rewrite <-HkS.
  - simpl in HS1.
    destruct (process_half_key C
                (process_signals C e2 (if bL then [sL] else [])).1
                sS bS eq_refl) as [K2|(_ & HS2 & _)];
      [|simpl in HS2; congruence].
    right. simpl. unfold reached, fp. rewrite HS1 in HnL, HkL. split.
    + rewrite <-HnL, <-HS1. by apply Z.leb_le.
    + apply Hset. eapply key_set_kept; [|done]. by rewrite <-HkL.
Qed.

(** All the symbols of the cycle. *)
Lemma loop_coins_key (e : engine) (coins : list string) :
  let r := loop_coins w ws T up e coins in
  key_kept C S e r.1 r.2 ∨ (reached ∧ key_set C S fp e r.1 r.2).
Proof.
  revert e. induction coins as [|coin coins IH]; intros e.
  { left. apply key_kept_refl. }
  cbn -[loop_coin].
  pose proof (loop_coin_key e coin) as H1.
  destruct (loop_coin w ws T up e coin) as [e1 ev1]. simpl in H1.
  specialize (IH e1).
  destruct (loop_coins w ws T up e1 coins) as [e2 ev2]. simpl in *.
  destruct H1 as [K1|[Hr K1]], IH as [K2|[Hr' K2]].
  - left. by eapply key_kept_trans.
  - right. split; [done|]. by eapply key_kept_set.
  - right. split; [done|]. by eapply key_set_kept.
  - destruct (key_set_set _ _ _ _ _ _ K1 K2).
Qed.
End KeySteps.

(** A whole cycle, seen from the key of a symbol and side: either the
    stored fingerprint is kept and nothing is sent for the pair, or the
    side reached the threshold with a composition whose fingerprint was
    not the stored one, and now is. *)
Lemma loop_iteration_key (C : string) (S : position_side) (w : world)
    (e : engine) :
  let r := loop_iteration w e in
  let comp := composition w (wallets (cfg e)) C S in
  key_kept C S e r.1 r.2 ∨
  ((cfg_consensus (cfg e) ≤ Z.of_nat (length comp))%Z ∧
   key_set C S (fingerprint C S comp) e r.1 r.2).
Proof.
  unfold loop_iteration. destruct (wallets (cfg e)) as [|a ws] eqn:Hws.
  { left. apply key_kept_refl. }
  set (e1 := if force_check_flag e then _ else _).
  assert (He1 : last_signals e1 = last_signals e)
    by (unfold e1; by destruct (force_check_flag e)).
  destruct (loop_coins_key C S w (a :: ws) (cfg_consensus (cfg e))
              (cfg_use_positions (cfg e)) e1 (cfg_coins (cfg e)))
    as [[K F]|[Hr (K1 & K2 & K3)]].
  - left. split; [by rewrite <-He1|done].
  - right. split; [done|]. split_and!; [by rewrite <-He1|done..].
Qed.

Lemma run_cycles_quiet (C : string) (S : position_side) (e : engine)
    (steps : list ((engine → engine) * world)) :
  quiet_cycles C S e steps →
  last_signals (run_cycles e steps) !! dedup_key C S =
    last_signals e !! dedup_key C S.
Proof.
  revert e. induction steps as [|[g w] steps IH]; intros e; [done|].
  cbn -[loop_iteration]. intros (Hg & Hbelow & Hrest).
  rewrite (IH _ Hrest).
  destruct (loop_iteration_key C S w (g e)) as [[K _]|[Hr _]].
  - by rewrite K, Hg.
  - unfold below_threshold in Hbelow. lia.
Qed.

(** C9: in a poll cycle the fingerprint stored for a (symbol, side) key
    changes only if a signal for that key is dispatched, and a stored
    fingerprint is never removed.  Hence, when a signal for the key is
    dispatched in one cycle, the side then stays below the threshold for
    any number of cycles (with commands possibly changing the
    configuration in between), and the wallet/size composition of the
    first cycle then recurs, the fingerprint of that composition is still
    the stored one, nothing is dispatched for the key, and the stored
    fingerprint stays. *)
Theorem no_new_alert_when_composition_recurs (C : string) (S : position_side) :
  (∀ (w : world) (e : engine),
     let r := loop_iteration w e in
     (last_signals r.1 !! dedup_key C S ≠ last_signals e !! dedup_key C S →
      Exists (about C S) r.2) ∧
     (is_Some (last_signals e !! dedup_key C S) →
      is_Some (last_signals r.1 !! dedup_key C S))) ∧
  (∀ (e0 : engine) (w_first : world)
     (quiet : list ((engine → engine) * world))
     (g_last : engine → engine) (w_last : world),
     let e1 := (loop_iteration w_first e0).1 in
     let e2 := run_cycles e1 quiet in
     let comp := composition w_first (wallets (cfg e0)) C S in
     Exists (about C S) (loop_iteration w_first e0).2 →
     quiet_cycles C S e1 quiet →
     last_signals (g_last e2) = last_signals e2 →
     composition w_last (wallets (cfg (g_last e2))) C S = comp →
     last_signals e2 !! dedup_key C S = Some (fingerprint C S comp) ∧
     Forall (λ ev, ¬ about C S ev) (loop_iteration w_last (g_last e2)).2 ∧
     last_signals (loop_iteration w_last (g_last e2)).1 !! dedup_key C S =
       Some (fingerprint C S comp)).
Proof.
  split.
  - intros w e r.
    destruct (loop_iteration_key C S w e) as [[K _]|(_ & _ & K & Hev)];
      fold r in K |- *.
    + split; [done|]. by rewrite K.
    + split; [done|]. by rewrite K.
  - intros e0 w_first quiet g_last w_last e1 e2 comp Hfirst Hquiet Hg Hcomp.
    assert (Hstored : last_signals e2 !! dedup_key C S =
                      Some (fingerprint C S comp)).
    { unfold e2. rewrite (run_cycles_quiet _ _ _ _ Hquiet).
      destruct (loop_iteration_key C S w_first e0)
        as [[_ F]|(_ & _ & K & _)]; [|done].
      apply Exists_exists in Hfirst as (ev & Hin & Hev).
      rewrite Forall_forall in F. destruct (F ev Hin Hev). }
    split; [done|].
    destruct (loop_iteration_key C S w_last (g_last e2))
      as [[K F]|(_ & Hne & _)].
    + split; [done|]. by rewrite K, Hg.
    + rewrite Hcomp, Hg in Hne. done.
Qed.

(** The scenario on the sample market: a long BTC consensus of two
    wallets, two cycles with one wallet flat, then the same two
    positions again. *)
Lemma no_new_alert_witness :
  let e0 := Sample.engine0 [Sample.w1; Sample.w2] 2 in
  let e2 := run_cycles (loop_iteration Sample.both_long e0).1
              Sample.quiet_steps in
  Exists (about "BTC" Long) (loop_iteration Sample.both_long e0).2 ∧
  last_signals e2 !! "BTC_long" =
    Some ("BTC:long:2:" +:+ Sample.w1 +:+ ":0.5," +:+ Sample.w2 +:+ ":1.0") ∧
  Forall (λ ev, ¬ about "BTC" Long ev) (loop_iteration Sample.both_long e2).2.
Proof.
  intros e0 e2.
  assert (Hfirst : Exists (about "BTC" Long)
                     (loop_iteration Sample.both_long e0).2).
  { vm_compute. apply Exists_cons_hd. reflexivity. }
  assert (Hquiet : quiet_cycles "BTC" Long
                     (loop_iteration Sample.both_long e0).1
                     Sample.quiet_steps).
  { cbn -[loop_iteration]. split_and!; try exact I;
      try (vm_compute; reflexivity). }
  destruct (proj2 (no_new_alert_when_composition_recurs "BTC" Long)
              e0 Sample.both_long Sample.quiet_steps id Sample.both_long
              Hfirst Hquiet eq_refl eq_refl)
    as (Hstored & Hnone & _).
  split_and!; [exact Hfirst| |exact Hnone].
  vm_compute. reflexivity.
Defined.

End PollCycle.

(** ** Notional value and unrealized PnL *)

Section ValueAndPnl.
Variables (w : world) (coin a : string).

Let det := extract_pos_details (clearinghouse w coin a) coin.
Let z := d_szi det.
Let en := d_entryPx det.
Let px := mids w !! upper coin.

(** C5 (amended): in the rows of the main poll loop and of [/last],
    value is |size| * mark whenever size and mark are present, PnL is
    (mark - entry) * size whenever size, entry and mark are present, and
    each field is [None] otherwise.  In the rows of
    [compute_last_snapshot] the same formulas hold whenever the operands
    are present and not zero, and a field is [None] whenever one of its
    operands is absent.  The entries of [/stats] carry no value; their PnL
    is (mark - entry) * size when entry and mark are present and not zero,
    and the number 0 when entry or mark is absent. *)
Theorem value_and_pnl_by_path :
  (∀ (stamps : gmap string string) (r : row),
     r = (loop_row w coin stamps a).2 ∨ r = last_row w coin stamps a →
     szi r = z ∧ entry r = en ∧ mark r = px ∧
     value r = match z, px with
               | Some v, Some p => Some (fmul (fabs v) p)
               | _, _ => None
               end ∧
     upnl r = match z, en, px with
              | Some v, Some e, Some p => Some (fmul (fsub p e) v)
              | _, _, _ => None
              end) ∧
  (let r := snapshot_row w coin a in
   szi r = z ∧ entry r = en ∧ mark r = px ∧
   (∀ v p, z = Some v → px = Some p → truthy v = true → truthy p = true →
      value r = Some (fmul (fabs v) p)) ∧
   (z = None ∨ px = None → value r = None) ∧
   (∀ v e p, z = Some v → en = Some e → px = Some p →
      truthy v = true → truthy e = true → truthy p = true →
      upnl r = Some (fmul (fsub p e) v)) ∧
   (z = None ∨ en = None ∨ px = None → upnl r = None)) ∧
  (∀ i : wallet_info,
     stats_entry_of w coin a = StatLong i ∨
     stats_entry_of w coin a = StatShort i →
     z = Some (wi_szi i) ∧ wi_entry i = en ∧ wi_mark i = px ∧
     (∀ e p, en = Some e → px = Some p →
        truthy e = true → truthy p = true →
        wi_upnl i = fmul (fsub p e) (wi_szi i)) ∧
     (en = None ∨ px = None → wi_upnl i = 0%float)).
Proof.
  split_and!.
  - intros stamps r [-> | ->]; simpl; fold det z en px;
      unfold value_of, upnl_of; by destruct z, en, px.
  - simpl. fold det z en px. split_and!; try done.
    + by intros v p -> -> -> ->.
    + intros [-> | ->]; [done|by destruct z].
    + by intros v e p -> -> -> -> -> ->.
    + intros [-> | [-> | ->]]; [done|by destruct z|by destruct z, en].
  - intros i Hi. unfold stats_entry_of in Hi. fold det z en px in Hi.
    destruct z as [v|]; [|by destruct Hi].
    destruct (fgt (fabs v) 0.0001); [|by destruct Hi].
    assert (Hi' : i = {| wi_addr := a; wi_szi := v; wi_entry := en;
                         wi_mark := px;
                         wi_upnl := match en, px with
                                    | Some e, Some p =>
                                        if truthy e && truthy p
                                        then fmul (fsub p e) v else 0%float
                                    | _, _ => 0%float
                                    end |}).
    { destruct (fgt v 0); destruct Hi as [Hi | Hi]; congruence. }
    subst i. simpl. split_and!; try done.
    + by intros e p -> -> -> ->.
    + intros [-> | ->]; [done|by destruct en].
Qed.
End ValueAndPnl.

(** C5 as stated fails in [/stats]: a wallet long 1 BTC whose entry price
    is not reported gets the PnL 0, not an absent one. *)
Lemma stats_substitutes_zero :
  ∃ i : wallet_info,
    stats_entry_of Sample.market_no_entry "BTC" Sample.w1 = StatLong i ∧
    wi_szi i = 1%float ∧ wi_entry i = None ∧ wi_mark i = Some 61000%float ∧
    wi_upnl i = 0%float.
Proof. eexists. split_and!; vm_compute; reflexivity. Qed.

(** On a size of zero the snapshot leaves the value out, where the poll
    loop and [/last] report the value 0. *)
Lemma snapshot_drops_zero_size :
  value (snapshot_row Sample.market_zero_size "BTC" Sample.w1) = None ∧
  value (last_row Sample.market_zero_size "BTC" ∅ Sample.w1) = Some 0%float.
Proof. split; vm_compute; reflexivity. Qed.

(** The amended statement on the sample market: the loop's row for a
    wallet long 0.5 BTC entered at 60000, quoted at 61000. *)
Lemma value_and_pnl_witness :
  let r := (loop_row Sample.both_long "BTC" ∅ Sample.w1).2 in
  value r = Some 30500%float ∧ upnl r = Some 500%float.
Proof.
  intros r.
  destruct (proj1 (value_and_pnl_by_path Sample.both_long "BTC" Sample.w1)
              ∅ r ltac:(left; reflexivity)) as (_ & _ & _ & Hv & Hu).
  split; [rewrite Hv|rewrite Hu]; vm_compute; reflexivity.
Defined.

(** ** The consensus threshold *)

Section Threshold.

(** No command lowers a threshold that is at least 1: [/set_consensus]
    refuses values below 1 and no other command writes the threshold. *)
Lemma commands_keep_threshold (w : world) (text : string) (e : engine) :
  (1 ≤ cfg_consensus (cfg e))%Z →
  (1 ≤ cfg_consensus (cfg (process_telegram_command w text e).1))%Z.
Proof.
  intros He. unfold process_telegram_command.
  repeat case_match; cbn [fst cfg set_cfg set_force_check_flag]; try done.
  unfold cfg_consensus, id in *. cbn [consensus_count set_consensus_count].
  simpl. lia.
Qed.

(** Commands never touch the stored fingerprints. *)
Lemma commands_keep_fingerprints (w : world) (text : string) (e : engine) :
  last_signals (process_telegram_command w text e).1 = last_signals e.
Proof.
  unfold process_telegram_command. repeat case_match; reflexivity.
Qed.

(** C4: the command channel keeps the threshold at 1 or more, but
    [PATCH /config] stores whatever integer it is given: the body
    [{"consensus_count": 0}] takes the threshold from 2 to 0 (and a
    negative number is stored as well), after which every poll cycle finds
    both sides of every symbol at the threshold, with no wallet on them. *)
Theorem patch_config_lowers_threshold_below_one
    (float_of_str : string → option float) :
  let e := Sample.engine0 [Sample.w1; Sample.w2] 2 in
  let e0 := patch_config float_of_str e [("consensus_count", JInt 0)] in
  let e_neg := patch_config float_of_str e [("consensus_count", JInt (-3))] in
  (∀ (w : world) (text : string),
     (1 ≤ cfg_consensus (cfg (process_telegram_command w text e).1))%Z) ∧
  cfg_consensus (cfg e) = 2%Z ∧
  cfg_consensus (cfg e0) = 0%Z ∧
  cfg_consensus (cfg e_neg) = (-3)%Z ∧
  map sig_count (signals_to_send "BTC" (cfg_consensus (cfg e0)) "" true [])
    = [0%Z; 0%Z].
Proof.
  intros e e0 e_neg. split; [|split_and!; vm_compute; reflexivity].
  intros w text. by apply commands_keep_threshold.
Qed.

End Threshold.

(** ** Commands *)

Section CommandNames.
Variables (w : world) (e : engine).

(** C7: the names of the read-only commands are compared with the text as
    received: in any other casing (or with blanks around them) [/last],
    [/status], [/config] and [/stats] get the "not recognized" reply
    (as does a recognized name that needs an argument and comes without
    one), while [/help], [/commands] and [/reload] are matched whatever
    the casing. *)
Theorem read_only_commands_are_case_sensitive :
  process_telegram_command w "/LAST" e = (e, [MsgUnrecognized]) ∧
  process_telegram_command w "/Status" e = (e, [MsgUnrecognized]) ∧
  process_telegram_command w "/CONFIG" e = (e, [MsgUnrecognized]) ∧
  process_telegram_command w "/Stats" e = (e, [MsgUnrecognized]) ∧
  process_telegram_command w "/status " e = (e, [MsgUnrecognized]) ∧
  process_telegram_command w "/add_wallet" e = (e, [MsgUnrecognized]) ∧
  process_telegram_command w "/status" e = (e, [MsgStatus (cfg e)]) ∧
  process_telegram_command w "/config" e = (e, [MsgConfig (cfg e)]) ∧
  (∃ rest, process_telegram_command w "/last" e = (e, MsgLastQuerying :: rest)) ∧
  (∃ rest, process_telegram_command w "/stats" e = (e, MsgStatsGenerating :: rest)) ∧
  process_telegram_command w "/HELP" e = (e, [MsgHelp]) ∧
  process_telegram_command w " /Commands " e = (e, [MsgExamples]) ∧
  process_telegram_command w "/RELOAD" e =
    (set_force_check_flag e true,
     [MsgReloading; MsgReloadDone (length (wallets (cfg e)))]).
Proof.
  split_and!; try reflexivity.
  - unfold process_telegram_command.
    cbn [strip lstrip rstrip lower map_chars].
    destruct (wallets (cfg e)); eexists; reflexivity.
  - eexists. reflexivity.
Qed.

End CommandNames.

(** ** The wallet commands *)

Section AddWallet.

Lemma ends_with_space_rstrip (s : string) : ends_with_space (rstrip s) = false.
Proof.
  induction s as [|c r IH]; [done|]. simpl.
  destruct (rstrip r) as [|d r'] eqn:Hr.
  - by destruct (is_space c) eqn:Hc.
  - exact IH.
Qed.

Lemma ends_with_space_tail (c : ascii) (r : string) :
  ends_with_space (String c r) = false → ends_with_space r = false.
Proof. by destruct r. Qed.

(** On a text that does not end with a blank, the final [$] of the
    pattern means the end of the text. *)
Lemma hex_run_exact (n : nat) (r : string) :
  ends_with_space r = false → hex_run n r = hex_exact n r.
Proof.
  revert r. induction n as [|n IH]; intros [|c r] Hr; simpl; try done.
  - destruct r; [|done]. simpl in Hr.
    destruct (Ascii.eqb_spec c "010") as [->|]; done.
  - f_equal. by eapply IH, ends_with_space_tail.
Qed.

Lemma wallet_re_exact (s : string) :
  ends_with_space s = false → _WALLET_RE_match s = is_wallet_address s.
Proof.
  intros Hs. destruct s as [|c1 [|c2 r]]; [reflexivity..|].
  apply ends_with_space_tail, ends_with_space_tail in Hs.
  unfold _WALLET_RE_match, is_wallet_address.
  rewrite (hex_run_exact 40 r Hs). reflexivity.
Qed.

Lemma command_arg_trimmed (t : string) :
  ends_with_space (command_arg t) = false.
Proof.
  unfold command_arg. repeat case_match; try done.
  apply ends_with_space_rstrip.
Qed.

(** A text that starts with [/add_wallet ] is none of the commands tested
    before it. *)
Lemma add_wallet_not_earlier (s : string) :
  startswith s "/add_wallet " = true →
  String.eqb s "/start" || String.eqb s "/help" = false ∧
  String.eqb s "/commands" || String.eqb s "/ejemplos" ||
    String.eqb s "/examples" = false.
Proof.
  destruct s as [|c1 [|c2 s]]; [done| |]; cbn [startswith].
  - by rewrite andb_false_r.
  - destruct (Ascii.eqb_spec c1 "/") as [->|]; [|done].
    destruct (Ascii.eqb_spec c2 "a") as [->|]; [|done]. done.
Qed.

(** What the [/add_wallet] branch does, in terms of its argument. *)
Lemma add_wallet_outcome (w : world) (text : string) (e : engine) :
  is_add_wallet text →
  let wallet := command_arg (strip text) in
  process_telegram_command w text e =
    if String.eqb wallet "" then (e, [MsgWalletUsage "/add_wallet"])
    else if negb (is_wallet_address wallet) then (e, [MsgWalletInvalid wallet])
    else if bool_decide (wallet ∈ wallets (cfg e))
         then (e, [MsgWalletExists wallet])
         else (set_cfg e (set_wallets (cfg e) (wallets (cfg e) ++ [wallet])),
               [MsgWalletAdded wallet (length (wallets (cfg e) ++ [wallet]))]).
Proof.
  intros Hcmd wallet. unfold is_add_wallet in Hcmd.
  destruct (add_wallet_not_earlier _ Hcmd) as [H1 H2].
  unfold process_telegram_command. rewrite H1, H2, Hcmd.
  fold wallet. by rewrite (wallet_re_exact wallet (command_arg_trimmed _)).
Qed.

(** C6: an [/add_wallet] command whose argument is not ["0x"] followed by
    exactly forty hexadecimal digits is rejected and the engine (so the
    wallet list) is left as it is; one whose argument is already in the
    list is rejected as a duplicate and the engine is left as it is; only
    a well-formed address that is not in the list is added, at the end. *)
Theorem add_wallet_validation (w : world) (text : string) (e : engine) :
  is_add_wallet text →
  let wallet := command_arg (strip text) in
  let r := process_telegram_command w text e in
  (is_wallet_address wallet = false →
   r = (e, [MsgWalletInvalid wallet]) ∨
   r = (e, [MsgWalletUsage "/add_wallet"])) ∧
  (is_wallet_address wallet = true → wallet ∈ wallets (cfg e) →
   r = (e, [MsgWalletExists wallet])) ∧
  (is_wallet_address wallet = true → wallet ∉ wallets (cfg e) →
   r = (set_cfg e (set_wallets (cfg e) (wallets (cfg e) ++ [wallet])),
        [MsgWalletAdded wallet (length (wallets (cfg e) ++ [wallet]))])) ∧
  (wallets (cfg r.1) = wallets (cfg e) ∨
   (wallets (cfg r.1) = wallets (cfg e) ++ [wallet] ∧
    is_wallet_address wallet = true ∧ wallet ∉ wallets (cfg e))).
Proof.
  intros Hcmd wallet r. unfold r.
  rewrite (add_wallet_outcome w text e Hcmd). fold wallet.
  destruct (String.eqb_spec wallet "") as [Hw|Hw].
  { rewrite Hw. split_and!; try done; auto. }
  destruct (is_wallet_address wallet) eqn:Hv; simpl.
  - case_bool_decide as Hin; split_and!; try done; auto.
  - split_and!; try done; auto.
Qed.

(** The three outcomes on a list of two wallets: an address of 39 digits,
    an address of the list, a new address. *)
Lemma add_wallet_validation_witness :
  let e := Sample.engine0 [Sample.w1; Sample.w2] 2 in
  let short := "0x111111111111111111111111111111111111111" in
  process_telegram_command Sample.one_long ("/add_wallet " +:+ short) e =
    (e, [MsgWalletInvalid short]) ∧
  process_telegram_command Sample.one_long ("/Add_Wallet  " +:+ Sample.w2) e =
    (e, [MsgWalletExists Sample.w2]) ∧
  wallets (cfg (process_telegram_command Sample.one_long
                  ("/add_wallet " +:+ Sample.w3) e).1) =
    [Sample.w1; Sample.w2; Sample.w3].
Proof.
  intros e short. split_and!.
  - destruct (add_wallet_validation Sample.one_long
                ("/add_wallet " +:+ short) e eq_refl) as (H & _).
    destruct (H eq_refl) as [H'|H']; [exact H'|].
    vm_compute in H'. discriminate H'.
  - destruct (add_wallet_validation Sample.one_long
                ("/Add_Wallet  " +:+ Sample.w2) e eq_refl) as (_ & H & _).
    apply (H eq_refl). vm_compute. apply list_elem_of_further, list_elem_of_here.
  - destruct (add_wallet_validation Sample.one_long
                ("/add_wallet " +:+ Sample.w3) e eq_refl) as (_ & _ & H & _).
    rewrite H; [reflexivity|reflexivity|].
    change (Sample.w3 ∉ [Sample.w1; Sample.w2]). rewrite !not_elem_of_cons.
    split_and!; [vm_compute; discriminate..|apply not_elem_of_nil].
Defined.

End AddWallet.

Section CaseVariant.

Lemma is_hex_lower_char (c : ascii) :
  is_hex_char (lower_char c) = is_hex_char c.
Proof. destruct c as [[] [] [] [] [] [] [] []]; reflexivity. Qed.

Lemma hex_not_space (c : ascii) : is_hex_char c = true → is_space c = false.
Proof. destruct c as [[] [] [] [] [] [] [] []]; (reflexivity || discriminate). Qed.

Lemma hex_not_comma (c : ascii) :
  is_hex_char c = true → negb (Ascii.eqb c ",") = true.
Proof. destruct c as [[] [] [] [] [] [] [] []]; (reflexivity || discriminate). Qed.

Lemma hex_exact_lower (n : nat) (h h' : string) :
  lower h' = lower h → hex_exact n h' = hex_exact n h.
Proof.
  revert h h'. induction n as [|n IH]; intros [|c h] [|c' h']; try done.
  intros [= Hc Hh]. simpl. rewrite (IH _ _ Hh).
  by rewrite <-(is_hex_lower_char c), <-(is_hex_lower_char c'), Hc.
Qed.

Lemma hex_exact_blank_free (n : nat) (h : string) :
  hex_exact n h = true → blank_free h = true.
Proof.
  revert h. induction n as [|n IH]; intros [|c h]; try done. simpl.
  intros [Hc Hh]%andb_true_iff. unfold blank_free. simpl.
  rewrite (hex_not_space c Hc). simpl. by apply IH.
Qed.

Lemma wallet_address_blank_free (v : string) :
  is_wallet_address v = true → blank_free v = true ∧ v ≠ "".
Proof.
  destruct v as [|c1 [|c2 h]]; try done. unfold is_wallet_address.
  intros [[H1 H2]%andb_true_iff H3]%andb_true_iff.
  apply Ascii.eqb_eq in H1 as ->. apply Ascii.eqb_eq in H2 as ->.
  split; [|done]. unfold blank_free. simpl.
  by apply (hex_exact_blank_free 40).
Qed.

(** A well-formed address has no comma, as the deduplication law asks of
    the addresses of a signal. *)
Lemma wallet_address_comma_free (v : string) :
  is_wallet_address v = true → free_of "," v = true.
Proof.
  destruct v as [|c1 [|c2 h]]; try done. unfold is_wallet_address.
  intros [[H1 H2]%andb_true_iff H3]%andb_true_iff.
  apply Ascii.eqb_eq in H1 as ->. apply Ascii.eqb_eq in H2 as ->.
  unfold free_of. simpl. revert H3. generalize 40%nat. intros n.
  revert h. induction n as [|n IH]; intros [|c h]; try done. simpl.
  intros [Hc Hh]%andb_true_iff. by rewrite (hex_not_comma c Hc), (IH h Hh).
Qed.

(** A case variant of a well-formed address is a well-formed address that
    reads the same in lower case and is another text. *)
Lemma hex_case_variant_valid (stored variant : string) :
  hex_case_variant stored variant → is_wallet_address stored = true →
  is_wallet_address variant = true ∧ lower variant = lower stored ∧
  variant ≠ stored.
Proof.
  intros (h & h' & -> & -> & Hl & Hne) Hv.
  rewrite !str_app_cons, !str_app_nil in *. split_and!.
  - unfold is_wallet_address in *.
    by rewrite (hex_exact_lower 40 h h' Hl).
  - unfold lower in *. simpl. by rewrite Hl.
  - intros [= ?]. done.
Qed.

Lemma lstrip_word (v : string) : blank_free v = true → lstrip v = v.
Proof.
  destruct v as [|c v]; [done|]. unfold blank_free. simpl.
  intros [Hc _]%andb_true_iff. by apply negb_true_iff in Hc as ->.
Qed.

Lemma rstrip_word (v : string) : blank_free v = true → rstrip v = v.
Proof.
  induction v as [|c v IH]; [done|]. unfold blank_free in *. simpl.
  intros [Hc Hv]%andb_true_iff. rewrite (IH Hv).
  apply negb_true_iff in Hc. rewrite Hc. by destruct v.
Qed.

Lemma rstrip_app_word (x v : string) :
  blank_free v = true → v ≠ "" → rstrip (x +:+ v) = x +:+ v.
Proof.
  intros Hv Hne. induction x as [|c x IH].
  - rewrite str_app_nil. by apply rstrip_word.
  - rewrite str_app_cons. simpl. rewrite IH.
    destruct (x +:+ v) eqn:Hx; [|done].
    destruct x; [|done]. by rewrite str_app_nil in Hx.
Qed.

Lemma split_word (v : string) :
  blank_free v = true → v ≠ "" → split v = [v].
Proof.
  induction v as [|c v IH]; [done|]. unfold blank_free in *. simpl.
  intros [Hc Hv]%andb_true_iff _. apply negb_true_iff in Hc. rewrite Hc.
  destruct v as [|d v]; [done|].
  rewrite (IH Hv) by done. simpl in Hv.
  apply andb_true_iff in Hv as [Hd _]. apply negb_true_iff in Hd.
  by rewrite Hd.
Qed.

(** The text of a command followed by one blank and a blank-free argument
    is already trimmed, and its argument is read back as it is. *)
Lemma command_text_arg (name v : string) :
  blank_free name = true → name ≠ "" →
  blank_free v = true → v ≠ "" →
  let text := name +:+ " " +:+ v in
  strip text = text ∧ command_arg text = v.
Proof.
  intros Hn Hne Hv Hve text.
  assert (Hl : lstrip text = text).
  { unfold text. destruct name as [|c name]; [done|].
    rewrite str_app_cons. unfold blank_free in Hn. simpl in *.
    apply andb_true_iff in Hn as [Hc _]. by apply negb_true_iff in Hc as ->. }
  assert (Hsplit : split text = [name; v]).
  { unfold text. clear Hl text. induction name as [|c name IH]; [done|].
    rewrite str_app_cons. unfold blank_free in Hn. simpl in Hn.
    apply andb_true_iff in Hn as [Hc Hn]. apply negb_true_iff in Hc.
    simpl. rewrite Hc. destruct name as [|d name].
    - rewrite str_app_nil. change (" " +:+ v) with (String " " v).
      simpl. rewrite (lstrip_word v Hv) || idtac.
      change (is_space " ") with true. simpl.
      by rewrite (split_word v Hv Hve).
    - rewrite str_app_cons in *. simpl in Hn.
      pose proof Hn as Hn'. apply andb_true_iff in Hn' as [Hd _].
      apply negb_true_iff in Hd. rewrite Hd.
      by rewrite (IH Hn ltac:(done)). }
  assert (Hspan : span_word text = (name, " " +:+ v)).
  { unfold text. clear Hl Hsplit text Hne.
    induction name as [|c name IH]; [done|].
    rewrite str_app_cons. unfold blank_free in Hn. simpl in Hn.
    apply andb_true_iff in Hn as [Hc Hn]. apply negb_true_iff in Hc.
    simpl. by rewrite Hc, (IH Hn). }
  split.
  - unfold strip. rewrite Hl. unfold text.
    rewrite <-str_app_assoc. by apply rstrip_app_word.
  - unfold command_arg, split_max1. rewrite Hsplit, Hl.
    destruct text as [|c t] eqn:Ht.
    { destruct name; done. }
    rewrite Hspan. change (" " +:+ v) with (String " " v).
    change (lstrip (String " " v)) with (lstrip v).
    rewrite (lstrip_word v Hv).
    destruct v as [|d v']; [done|]. cbn [length bool_decide lookup list_lookup].
    unfold strip. by rewrite (lstrip_word _ Hv), (rstrip_word _ Hv).
Qed.

Lemma lower_app (a b : string) : lower (a +:+ b) = lower a +:+ lower b.
Proof.
  unfold lower. induction a as [|c a IH]; [done|].
  rewrite str_app_cons. simpl. by rewrite IH, str_app_cons.
Qed.

Lemma startswith_app (p r : string) : startswith (p +:+ r) p = true.
Proof.
  induction p as [|c p IH]; [by destruct r|].
  rewrite str_app_cons. simpl. by rewrite Ascii.eqb_refl, IH.
Qed.

Lemma add_wallet_text (v : string) :
  blank_free v = true → v ≠ "" →
  is_add_wallet ("/add_wallet " +:+ v) ∧
  command_arg (strip ("/add_wallet " +:+ v)) = v.
Proof.
  intros Hv Hne.
  destruct (command_text_arg "/add_wallet" v eq_refl ltac:(done) Hv Hne)
    as [Hs Ha].
  change ("/add_wallet" +:+ " " +:+ v) with ("/add_wallet " +:+ v) in Hs, Ha.
  unfold is_add_wallet. rewrite Hs, lower_app. split; [|done].
  apply (startswith_app "/add_wallet ").
Qed.

(** A text that starts with [/remove_wallet ] reaches the branch of that
    command. *)
Lemma remove_wallet_outcome (w : world) (v : string) (e : engine) :
  blank_free v = true → v ≠ "" →
  process_telegram_command w ("/remove_wallet " +:+ v) e =
    match find_wallet v (wallets (cfg e)) with
    | Some wallet_to_remove =>
        if String.eqb wallet_to_remove "" then (e, [MsgWalletNotFound v])
        else
          let ws' := list_remove wallet_to_remove (wallets (cfg e)) in
          (set_cfg e (set_wallets (cfg e) ws'),
           [MsgWalletRemoved wallet_to_remove (length ws')])
    | None => (e, [MsgWalletNotFound v])
    end.
Proof.
  intros Hv Hne.
  destruct (command_text_arg "/remove_wallet" v eq_refl ltac:(done) Hv Hne)
    as [Hs Ha].
  change ("/remove_wallet" +:+ " " +:+ v) with ("/remove_wallet " +:+ v)
    in Hs, Ha.
  unfold process_telegram_command. rewrite Hs, Ha, lower_app.
  change (lower "/remove_wallet ") with "/remove_wallet ".
  rewrite (startswith_app "/remove_wallet ").
  rewrite !str_app_cons, str_app_nil. cbn [String.eqb Ascii.eqb Bool.eqb orb
    startswith andb].
  destruct (String.eqb_spec v "") as [->|_]; [done|]. reflexivity.
Qed.

(** C10 (amended): the duplicate test of [/add_wallet] compares texts, the
    search of [/remove_wallet] compares lower-case forms.  So, for a
    well-formed address of the wallet list and a variant of it that
    differs in the case of some hexadecimal letter and is not itself in
    the list, [/add_wallet] with the variant passes validation, is not a
    duplicate, and appends the variant as a further entry; whereas
    [/remove_wallet] with the variant finds and removes a wallet of the
    list. *)
Theorem add_wallet_accepts_case_variant (w : world) (e : engine)
    (stored variant : string) :
  stored ∈ wallets (cfg e) →
  is_wallet_address stored = true →
  hex_case_variant stored variant →
  variant ∉ wallets (cfg e) →
  is_wallet_address variant = true ∧
  lower variant = lower stored ∧
  process_telegram_command w ("/add_wallet " +:+ variant) e =
    (set_cfg e (set_wallets (cfg e) (wallets (cfg e) ++ [variant])),
     [MsgWalletAdded variant (length (wallets (cfg e) ++ [variant]))]) ∧
  ∃ found : string,
    found ∈ wallets (cfg e) ∧ wallet_matches variant found = true ∧
    process_telegram_command w ("/remove_wallet " +:+ variant) e =
      (set_cfg e (set_wallets (cfg e) (list_remove found (wallets (cfg e)))),
       [MsgWalletRemoved found
          (length (list_remove found (wallets (cfg e))))]).
Proof.
  intros Hin Hstored Hvar Hnew.
  destruct (hex_case_variant_valid _ _ Hvar Hstored) as (Hvalid & Hlow & Hne).
  destruct (wallet_address_blank_free _ Hvalid) as [Hbf Hnn].
  destruct (add_wallet_text variant Hbf Hnn) as [Hcmd Harg].
  split_and!; [done..| |].
  - rewrite (add_wallet_outcome w _ e Hcmd). cbn zeta. rewrite Harg, Hvalid.
    destruct (String.eqb_spec variant "") as [?|_]; [done|]. simpl.
    by rewrite bool_decide_eq_false_2.
  - rewrite (remove_wallet_outcome w variant e Hbf Hnn).
    destruct (find_wallet variant (wallets (cfg e))) as [found|] eqn:Hf.
    + apply find_some in Hf as [Hfin Hm]. exists found.
      split_and!; [by apply list_elem_of_In|done|].
      destruct (String.eqb_spec found "") as [->|_]; [|done].
      unfold wallet_matches in Hm. destruct variant as [|c v]; [done|].
      done.
    + eapply find_none in Hf; [|by apply list_elem_of_In].
      unfold wallet_matches in Hf. by rewrite Hlow, String.eqb_refl in Hf.
Qed.

Lemma sample_case_variant : hex_case_variant Sample.w3 Sample.w3_upper.
Proof.
  exists "abcdefabcdefabcdefabcdefabcdefabcdefabcd",
         "ABCDEFABCDEFABCDEFABCDEFABCDEFABCDEFABCD".
  split_and!; [reflexivity..|discriminate].
Defined.

(** With the lower-case address listed, the upper-case variant is added as
    a second entry, and [/remove_wallet] with the variant removes the
    lower-case one. *)
Lemma add_wallet_case_variant_witness :
  let e := Sample.engine0 [Sample.w3] 1 in
  wallets (cfg (process_telegram_command Sample.one_long
                  ("/add_wallet " +:+ Sample.w3_upper) e).1) =
    [Sample.w3; Sample.w3_upper] ∧
  process_telegram_command Sample.one_long
    ("/remove_wallet " +:+ Sample.w3_upper) e =
    (set_cfg e (set_wallets (cfg e) []), [MsgWalletRemoved Sample.w3 0]).
Proof.
  intros e.
  assert (Hnew : Sample.w3_upper ∉ wallets (cfg e)).
  { change (Sample.w3_upper ∉ [Sample.w3]). rewrite not_elem_of_cons.
    split; [vm_compute; discriminate|apply not_elem_of_nil]. }
  destruct (add_wallet_accepts_case_variant Sample.one_long e
              Sample.w3 Sample.w3_upper (list_elem_of_here _ _) eq_refl
              sample_case_variant Hnew) as (_ & _ & Hadd & _).
  split; [by rewrite Hadd|]. vm_compute. reflexivity.
Defined.

(** C10 as stated fails when the variant itself is already in the list:
    then [/add_wallet] with the variant is rejected as a duplicate and
    nothing is appended. *)
Lemma add_wallet_rejects_listed_variant :
  let e := Sample.engine0 [Sample.w3; Sample.w3_upper] 1 in
  Sample.w3 ∈ wallets (cfg e) ∧
  is_wallet_address Sample.w3 = true ∧
  hex_case_variant Sample.w3 Sample.w3_upper ∧
  process_telegram_command Sample.one_long
    ("/add_wallet " +:+ Sample.w3_upper) e =
    (e, [MsgWalletExists Sample.w3_upper]).
Proof.
  intros e. split_and!.
  - apply list_elem_of_here.
  - reflexivity.
  - apply sample_case_variant.
  - vm_compute. reflexivity.
Qed.

End CaseVariant.

(** ** What commands do to the engine *)

Section CommandEffects.

(** X1: a command changes the configuration, or raises the force-check flag,
    and nothing else: the stored fingerprints, the first-seen times, the
    cached rows and the websocket callback are those of before. *)
Theorem commands_change_configuration_only (w : world) (text : string)
    (e : engine) :
  let e' := (process_telegram_command w text e).1 in
  last_signals e' = last_signals e ∧
  position_timestamps e' = position_timestamps e ∧
  last_positions e' = last_positions e ∧
  ws_callback e' = ws_callback e ∧
  running e' = running e ∧
  (force_check_flag e' = force_check_flag e ∨
   (force_check_flag e' = true ∧ cfg e' = cfg e)).
Proof.
  unfold process_telegram_command.
  repeat case_match; cbn [fst]; split_and!; try reflexivity; auto.
Qed.

Lemma list_remove_sublist (x : string) (l : list string) :
  list_remove x l `sublist_of` l.
Proof.
  induction l as [|y l IH]; [constructor|]. simpl.
  destruct (String.eqb y x); [by apply sublist_cons|by apply sublist_skip].
Qed.

Lemma list_remove_Forall (P : string → Prop) (x : string) (l : list string) :
  Forall P l → Forall P (list_remove x l).
Proof.
  rewrite !Forall_forall. intros H y Hy. apply H.
  eapply elem_of_sublist; [done|apply list_remove_sublist].
Qed.

Lemma list_remove_NoDup (x : string) (l : list string) :
  NoDup l → NoDup (list_remove x l).
Proof. intros H. eapply sublist_NoDup; [done|apply list_remove_sublist]. Qed.

Lemma upper_char_idemp (c : ascii) : upper_char (upper_char c) = upper_char c.
Proof. destruct c as [[] [] [] [] [] [] [] []]; reflexivity. Qed.

Lemma upper_idemp (s : string) : upper (upper s) = upper s.
Proof.
  unfold upper. induction s as [|c s IH]; [done|]. simpl.
  by rewrite upper_char_idemp, IH.
Qed.

Lemma snoc_NoDup (x : string) (l : list string) :
  NoDup l → x ∉ l → NoDup (l ++ [x]).
Proof.
  intros Hl Hx. apply NoDup_app. split_and!; [done| |apply NoDup_singleton].
  intros y Hy ->%list_elem_of_singleton. done.
Qed.

(** X2: the command channel keeps a well-formed configuration well formed,
    whatever text it receives: the threshold stays at 1 or more, the poll
    interval between 10 and 600, every wallet of the address format and
    listed once, every symbol in upper case and listed once. *)
Theorem commands_keep_configuration_well_formed (w : world) (text : string)
    (e : engine) :
  well_formed_config (cfg e) →
  well_formed_config (cfg (process_telegram_command w text e).1).
Proof.
  intros Hwf. pose proof Hwf as (Hth & Hpoll & Hval & Hnd & Hup & Hsnd).
  unfold process_telegram_command.
  repeat case_match; cbn [fst cfg set_cfg set_force_check_flag]; try done;
    unfold well_formed_config, cfg_consensus, cfg_poll_seconds, id in *;
    cbn [wallets symbols consensus_count poll_seconds set_wallets
         set_symbols set_consensus_count set_poll_seconds default
         from_option] in *;
    split_and!; try done; try lia.
  - apply Forall_app. split; [done|]. constructor; [|done].
    rewrite <-wallet_re_exact by apply command_arg_trimmed.
    by apply negb_false_iff.
  - apply snoc_NoDup; [done|]. by eapply bool_decide_eq_false_1.
  - by apply list_remove_Forall.
  - by apply list_remove_NoDup.
  - apply Forall_app. split; [done|]. constructor; [|done]. apply upper_idemp.
  - apply snoc_NoDup; [done|]. by eapply bool_decide_eq_false_1.
  - by apply list_remove_Forall.
  - by apply list_remove_NoDup.
Qed.

Lemma commands_keep_configuration_well_formed_witness :
  well_formed_config
    (cfg (process_telegram_command (Sample.market [])
            ("/add_wallet " +:+ Sample.w3)
            (Sample.engine0 [Sample.w1; Sample.w2] 2)).1).
Proof.
  apply (commands_keep_configuration_well_formed (Sample.market [])
           ("/add_wallet " +:+ Sample.w3)
           (Sample.engine0 [Sample.w1; Sample.w2] 2)).
  unfold well_formed_config.
  change (cfg (Sample.engine0 [Sample.w1; Sample.w2] 2))
    with (Sample.config0 [Sample.w1; Sample.w2] 2).
  cbn [Sample.config0 cfg_consensus cfg_poll_seconds wallets symbols
       consensus_count poll_seconds default from_option].
  unfold id. split_and!; try lia.
  - repeat constructor.
  - apply (NoDup_cons_2 Sample.w1 [Sample.w2]).
    + rewrite not_elem_of_cons. split; [vm_compute; discriminate|].
      apply not_elem_of_nil.
    + apply NoDup_singleton.
  - repeat constructor.
  - apply NoDup_singleton.
Defined.

End CommandEffects.

(** ** Commands with an argument *)

Section CommandArguments.

Lemma command_text_split (name v : string) :
  blank_free name = true → name ≠ "" →
  blank_free v = true → v ≠ "" →
  split (name +:+ " " +:+ v) = [name; v].
Proof.
  intros Hn Hne Hv Hve. induction name as [|c name IH]; [done|].
  rewrite str_app_cons. unfold blank_free in Hn. simpl in Hn.
  apply andb_true_iff in Hn as [Hc Hn]. apply negb_true_iff in Hc.
  simpl. rewrite Hc. destruct name as [|d name].
  - rewrite str_app_nil. change (" " +:+ v) with (String " " v).
    change (is_space " ") with true. simpl.
    by rewrite (split_word v Hv Hve).
  - rewrite str_app_cons in *. simpl in Hn.
    pose proof Hn as Hn'. apply andb_true_iff in Hn' as [Hd _].
    apply negb_true_iff in Hd. rewrite Hd.
    by rewrite (IH Hn ltac:(done)).
Qed.

Lemma digit_val_pretty (d : N) :
  (d < 10)%N → digit_val (pretty_N_char d) = Z.of_N d.
Proof.
  intros Hd.
  assert (d = 0 ∨ d = 1 ∨ d = 2 ∨ d = 3 ∨ d = 4 ∨ d = 5 ∨ d = 6 ∨ d = 7 ∨
          d = 8 ∨ d = 9)%N as H by lia.
  repeat (destruct H as [->|H]; [reflexivity|]). by subst.
Qed.

(** Reading the digits that [pretty] writes gives the number back. *)
Lemma int_digits_pretty_go (x : N) :
  (0 < x)%N → ∀ s, ∃ k : Z,
    ∀ acc b, int_digits acc b (pretty_N_go x s) =
             int_digits (acc * k + Z.of_N x) true s.
Proof.
  induction (N.lt_wf_0 x) as [x _ IH]. intros Hx s.
  rewrite pretty_N_go_step by done.
  assert (Hm : (x `mod` 10 < 10)%N) by (apply N.mod_lt; lia).
  pose proof (N.div_mod x 10 ltac:(lia)) as Hdm.
  destruct (decide (x `div` 10 = 0)%N) as [Hz|Hz].
  - rewrite Hz, pretty_N_go_0. exists 10%Z. intros acc b. simpl.
    rewrite pretty_N_char_digit, digit_val_pretty by done. f_equal. lia.
  - destruct (IH (x `div` 10)%N (N.div_lt x 10 Hx eq_refl) ltac:(lia)
                (String (pretty_N_char (x `mod` 10)) s)) as [k Hk].
    exists (k * 10)%Z. intros acc b. rewrite Hk. simpl.
    rewrite pretty_N_char_digit, digit_val_pretty by done. f_equal. lia.
Qed.

Lemma int_unsigned_digit (c : ascii) (r : string) :
  is_digit_char c = true →
  int_of_str (String c r) = int_unsigned (String c r).
Proof.
  destruct c as [[] [] [] [] [] [] [] []]; intros H;
    (discriminate H || reflexivity).
Qed.

(** The digits [pretty] writes are counted one by one; a number has no
    more digits than its value. *)
Lemma count_digits_pretty_go (x : N) :
  (0 < x)%N → ∀ s,
    (count_digits (pretty_N_go x s) ≤ x + count_digits s)%N.
Proof.
  induction (N.lt_wf_0 x) as [x _ IH]. intros Hx s.
  rewrite pretty_N_go_step by done.
  pose proof (N.div_mod x 10 ltac:(lia)) as Hdm.
  assert (Hm : (x `mod` 10 < 10)%N) by (apply N.mod_lt; lia).
  destruct (decide (x `div` 10 = 0)%N) as [Hz|Hz].
  - rewrite Hz, pretty_N_go_0. cbn [count_digits].
    rewrite pretty_N_char_digit. cbv iota. lia.
  - etrans; [apply (IH (x `div` 10)%N (N.div_lt x 10 Hx eq_refl)); lia|].
    cbn [count_digits]. rewrite pretty_N_char_digit. cbv iota.
    clear IH. revert Hdm Hz. generalize (x `div` 10)%N (x `mod` 10)%N. lia.
Qed.

Lemma count_digits_pretty (x : N) :
  (count_digits (pretty x) ≤ N.max 1 x)%N.
Proof.
  unfold pretty, pretty_N. case_decide as Hx; [by subst|].
  pose proof (count_digits_pretty_go x ltac:(lia) "") as H.
  cbn [count_digits] in H. lia.
Qed.

(** [int(str(x))] is [x] as long as the text has no more than 4300
    digits, and raises beyond. *)
Lemma int_of_str_pretty_N (x : N) :
  int_of_str (pretty x) =
    if (4300 <? count_digits (pretty x))%N then None else Some (Z.of_N x).
Proof.
  destruct (pretty_N_shape x) as (c & r & Hp & Hc & _).
  rewrite Hp, (int_unsigned_digit c r Hc), <-Hp. unfold int_unsigned.
  destruct (4300 <? count_digits (pretty x))%N; [done|].
  unfold pretty, pretty_N. case_decide as Hx; [by subst|].
  destruct (int_digits_pretty_go x ltac:(lia) "") as [k Hk].
  rewrite Hk. simpl. done.
Qed.

Lemma int_of_str_pretty_neg (p : positive) :
  int_of_str (pretty (Z.neg p)) =
    if (4300 <? count_digits (pretty (N.pos p)))%N
    then None else Some (Z.neg p).
Proof.
  change (pretty (Z.neg p)) with ("-" +:+ pretty (N.pos p)).
  rewrite str_app_cons, str_app_nil.
  change (int_of_str (String "-" (pretty (N.pos p)))) with
    (Z.opp <$> int_unsigned (pretty (N.pos p))).
  pose proof (int_of_str_pretty_N (N.pos p)) as H.
  destruct (pretty_N_shape (N.pos p)) as (c & r & Hp & Hc & _).
  rewrite Hp, (int_unsigned_digit c r Hc), <-Hp in H. rewrite H.
  by destruct (4300 <? count_digits (pretty (N.pos p)))%N.
Qed.

Lemma digit_not_space (c : ascii) : is_digit_char c = true → is_space c = false.
Proof.
  destruct c as [[] [] [] [] [] [] [] []]; intros H;
    (discriminate H || reflexivity).
Qed.

Lemma pretty_Z_blank_free (n : Z) : blank_free (pretty n) = true ∧ pretty n ≠ "".
Proof.
  assert (HN : ∀ x : N, blank_free (pretty x) = true ∧ pretty x ≠ "").
  { intros x. split.
    - eapply all_chars_impl; [|apply pretty_N_digits].
      intros c Hc. by rewrite (digit_not_space c Hc).
    - by destruct (pretty_N_shape x) as (c & r & -> & _). }
  destruct n as [|p|p]; [done|apply (HN (N.pos p))|].
  change (pretty (Z.neg p)) with ("-" +:+ pretty (N.pos p)).
  rewrite str_app_cons, str_app_nil. split; [|done].
  unfold blank_free. simpl. apply (HN (N.pos p)).
Qed.

End CommandArguments.

Section CommandOutcomes.

Lemma upper_nonempty (v : string) : v ≠ "" → upper v ≠ "".
Proof. by destruct v. Qed.

Lemma add_coin_outcome (w : world) (v : string) (e : engine) :
  blank_free v = true → v ≠ "" →
  process_telegram_command w ("/add_coin " +:+ v) e =
    let ss := default [] (symbols (cfg e)) in
    if bool_decide (upper v ∈ ss) then (e, [MsgCoinExists (upper v)])
    else (set_cfg e (set_symbols (cfg e) (ss ++ [upper v])),
          [MsgCoinAdded (upper v) (ss ++ [upper v])]).
Proof.
  intros Hv Hne.
  destruct (command_text_arg "/add_coin" v eq_refl ltac:(done) Hv Hne)
    as [Hs Ha].
  change ("/add_coin" +:+ " " +:+ v) with ("/add_coin " +:+ v) in Hs, Ha.
  unfold process_telegram_command. rewrite Hs, Ha, lower_app.
  change (lower "/add_coin ") with "/add_coin ".
  rewrite (startswith_app "/add_coin ").
  rewrite !str_app_cons, str_app_nil. cbn [String.eqb Ascii.eqb Bool.eqb orb
    startswith andb].
  destruct (String.eqb_spec (upper v) "") as [H|_]; [|reflexivity].
  by apply upper_nonempty in H.
Qed.

Lemma remove_coin_outcome (w : world) (v : string) (e : engine) :
  blank_free v = true → v ≠ "" →
  process_telegram_command w ("/remove_coin " +:+ v) e =
    let ss := default [] (symbols (cfg e)) in
    if bool_decide (upper v ∈ ss)
    then (set_cfg e (set_symbols (cfg e) (list_remove (upper v) ss)),
          [MsgCoinRemoved (upper v) (list_remove (upper v) ss)])
    else (e, [MsgCoinNotFound (upper v)]).
Proof.
  intros Hv Hne.
  destruct (command_text_arg "/remove_coin" v eq_refl ltac:(done) Hv Hne)
    as [Hs Ha].
  change ("/remove_coin" +:+ " " +:+ v) with ("/remove_coin " +:+ v) in Hs, Ha.
  unfold process_telegram_command. rewrite Hs, Ha, lower_app.
  change (lower "/remove_coin ") with "/remove_coin ".
  rewrite (startswith_app "/remove_coin ").
  rewrite !str_app_cons, str_app_nil. cbn [String.eqb Ascii.eqb Bool.eqb orb
    startswith andb].
  destruct (String.eqb_spec (upper v) "") as [H|_];
    [by apply upper_nonempty in H|].
  cbv zeta. by destruct (bool_decide _).
Qed.

Lemma set_consensus_outcome (w : world) (v : string) (e : engine) :
  blank_free v = true → v ≠ "" →
  process_telegram_command w ("/set_consensus " +:+ v) e =
    match int_of_str v with
    | Some n =>
        if (n <? 1)%Z then (e, [MsgConsensusInvalid])
        else (set_cfg e (set_consensus_count (cfg e) n),
              [MsgConsensusUpdated (cfg_consensus (cfg e)) n])
    | None => (e, [MsgConsensusInvalid])
    end.
Proof.
  intros Hv Hne.
  destruct (command_text_arg "/set_consensus" v eq_refl ltac:(done) Hv Hne)
    as [Hs _].
  pose proof (command_text_split "/set_consensus" v eq_refl ltac:(done) Hv Hne)
    as Hsp.
  change ("/set_consensus" +:+ " " +:+ v) with ("/set_consensus " +:+ v)
    in Hs, Hsp.
  unfold process_telegram_command. rewrite Hs, Hsp, lower_app.
  change (lower "/set_consensus ") with "/set_consensus ".
  rewrite (startswith_app "/set_consensus ").
  rewrite !str_app_cons, str_app_nil. cbn [String.eqb Ascii.eqb Bool.eqb orb
    startswith andb]. reflexivity.
Qed.

Lemma set_interval_outcome (w : world) (v : string) (e : engine) :
  blank_free v = true → v ≠ "" →
  process_telegram_command w ("/set_interval " +:+ v) e =
    match int_of_str v with
    | Some n =>
        if (n <? 10)%Z || (600 <? n)%Z then (e, [MsgIntervalInvalid])
        else (set_cfg e (set_poll_seconds (cfg e) n),
              [MsgIntervalUpdated (cfg_poll_seconds (cfg e)) n])
    | None => (e, [MsgIntervalInvalid])
    end.
Proof.
  intros Hv Hne.
  destruct (command_text_arg "/set_interval" v eq_refl ltac:(done) Hv Hne)
    as [Hs _].
  pose proof (command_text_split "/set_interval" v eq_refl ltac:(done) Hv Hne)
    as Hsp.
  change ("/set_interval" +:+ " " +:+ v) with ("/set_interval " +:+ v)
    in Hs, Hsp.
  unfold process_telegram_command. rewrite Hs, Hsp, lower_app.
  change (lower "/set_interval ") with "/set_interval ".
  rewrite (startswith_app "/set_interval ").
  rewrite !str_app_cons, str_app_nil. cbn [String.eqb Ascii.eqb Bool.eqb orb
    startswith andb]. reflexivity.
Qed.

End CommandOutcomes.

Section CommandRoundTrips.

Lemma list_remove_middle (x : string) (l1 l2 : list string) :
  x ∉ l1 → list_remove x (l1 ++ x :: l2) = l1 ++ l2.
Proof.
  induction l1 as [|y l1 IH]; intros Hx; simpl.
  - by rewrite String.eqb_refl.
  - apply not_elem_of_cons in Hx as [Hxy Hx].
    destruct (String.eqb_spec y x) as [->|_]; [done|]. by rewrite IH.
Qed.

Lemma find_wallet_middle (v x : string) (l1 l2 : list string) :
  Forall (λ y, wallet_matches v y = false) l1 →
  wallet_matches v x = true →
  find_wallet v (l1 ++ x :: l2) = Some x.
Proof.
  intros Hl Hx. unfold find_wallet.
  induction Hl as [|y l1 Hy _ IH]; simpl; [by rewrite Hx|by rewrite Hy].
Qed.

Lemma find_wallet_none (v : string) (l : list string) :
  Forall (λ y, wallet_matches v y = false) l → find_wallet v l = None.
Proof.
  intros Hl. unfold find_wallet.
  induction Hl as [|y l Hy _ IH]; simpl; [done|by rewrite Hy].
Qed.

Lemma wallet_matches_nonempty (v x : string) :
  v ≠ "" → wallet_matches v x = true → x ≠ "".
Proof. intros Hv Hx ->. by destruct v. Qed.

Lemma wallet_matches_refl (v : string) : wallet_matches v v = true.
Proof. unfold wallet_matches. by rewrite String.eqb_refl. Qed.

Lemma no_match_not_elem (v x : string) (l : list string) :
  Forall (λ y, wallet_matches v y = false) l →
  wallet_matches v x = true → x ∉ l.
Proof.
  intros Hl Hx Hin. rewrite Forall_forall in Hl.
  specialize (Hl x Hin). congruence.
Qed.

Lemma set_cfg_same (e : engine) : set_cfg e (cfg e) = e.
Proof. by destruct e. Qed.

Lemma set_cfg_again (e : engine) (c c' : config) :
  set_cfg (set_cfg e c) c' = set_cfg e c'.
Proof. done. Qed.

Lemma set_wallets_back (c : config) (ws : list string) :
  set_wallets (set_wallets c ws) (wallets c) = c.
Proof. by destruct c. Qed.

Lemma set_symbols_back (c : config) (ss ss' : list string) :
  symbols c = Some ss → set_symbols (set_symbols c ss') ss = c.
Proof. destruct c. simpl. by intros ->. Qed.

(** X3: [/remove_wallet v] removes the first wallet of the list whose
    lower-case form is, or starts with, the lower-case form of [v] (so a
    prefix of an address is enough, in any case), and keeps the others in
    their order; when no wallet of the list does, the engine is left as it
    is and the sender is told that the wallet was not found. *)
Theorem remove_wallet_removes_first_match (w : world) (v : string)
    (e : engine) :
  blank_free v = true → v ≠ "" →
  (∀ l1 x l2,
     wallets (cfg e) = l1 ++ x :: l2 →
     Forall (λ y, wallet_matches v y = false) l1 →
     wallet_matches v x = true →
     process_telegram_command w ("/remove_wallet " +:+ v) e =
       (set_cfg e (set_wallets (cfg e) (l1 ++ l2)),
        [MsgWalletRemoved x (length (l1 ++ l2))])) ∧
  (Forall (λ y, wallet_matches v y = false) (wallets (cfg e)) →
   process_telegram_command w ("/remove_wallet " +:+ v) e =
     (e, [MsgWalletNotFound v])).
Proof.
  intros Hv Hne. rewrite (remove_wallet_outcome w v e Hv Hne). split.
  - intros l1 x l2 Hws Hl1 Hx. rewrite Hws.
    rewrite (find_wallet_middle v x l1 l2 Hl1 Hx).
    destruct (String.eqb_spec x "") as [Hx0|_];
      [by apply (wallet_matches_nonempty v x Hne) in Hx0|].
    cbv zeta.
    by rewrite (list_remove_middle x l1 l2 (no_match_not_elem v x l1 Hl1 Hx)).
  - intros Hl. by rewrite (find_wallet_none v _ Hl).
Qed.

Lemma remove_wallet_removes_first_match_witness :
  let e := Sample.engine0 [Sample.w1; Sample.w2; Sample.w3] 2 in
  (process_telegram_command (Sample.market []) ("/remove_wallet " +:+ "0X22") e).1
    = set_cfg e (set_wallets (cfg e) [Sample.w1; Sample.w3]) ∧
  process_telegram_command (Sample.market []) ("/remove_wallet " +:+ "0x5") e
    = (e, [MsgWalletNotFound "0x5"]).
Proof.
  intros e.
  destruct (remove_wallet_removes_first_match (Sample.market []) "0X22" e
              eq_refl ltac:(discriminate)) as [H1 _].
  destruct (remove_wallet_removes_first_match (Sample.market []) "0x5" e
              eq_refl ltac:(discriminate)) as [_ H2].
  split.
  - rewrite (H1 [Sample.w1] Sample.w2 [Sample.w3] eq_refl
               ltac:(repeat constructor) eq_refl). reflexivity.
  - apply H2. repeat constructor.
Defined.

(** X4: adding a well-formed address that no wallet of the list matches
    (in the sense of the search of [/remove_wallet]) and then removing it
    gives the engine back as it was. *)
Theorem add_then_remove_wallet_restores (w w' : world) (v : string)
    (e : engine) :
  is_wallet_address v = true →
  Forall (λ y, wallet_matches v y = false) (wallets (cfg e)) →
  let e1 := (process_telegram_command w ("/add_wallet " +:+ v) e).1 in
  wallets (cfg e1) = wallets (cfg e) ++ [v] ∧
  (process_telegram_command w' ("/remove_wallet " +:+ v) e1).1 = e.
Proof.
  intros Hv Hl.
  destruct (wallet_address_blank_free v Hv) as [Hb Hne].
  destruct (add_wallet_text v Hb Hne) as [Hcmd Harg].
  pose proof (no_match_not_elem v v _ Hl (wallet_matches_refl v)) as Hnot.
  rewrite (add_wallet_outcome w _ e Hcmd), Harg, Hv.
  destruct (String.eqb_spec v "") as [|_]; [done|].
  rewrite bool_decide_eq_false_2 by done. cbn [negb fst].
  split; [done|].
  rewrite (remove_wallet_outcome w' v _ Hb Hne).
  cbn [cfg set_cfg wallets set_wallets].
  rewrite (find_wallet_middle v v _ [] Hl (wallet_matches_refl v)).
  destruct (String.eqb_spec v "") as [|_]; [done|].
  cbv zeta. cbn [fst].
  rewrite (list_remove_middle v _ [] Hnot), app_nil_r.
  by rewrite set_cfg_again, set_wallets_back, set_cfg_same.
Qed.

Lemma add_then_remove_wallet_restores_witness :
  let e := Sample.engine0 [Sample.w1; Sample.w2] 2 in
  let e1 := (process_telegram_command (Sample.market [])
               ("/add_wallet " +:+ Sample.w3) e).1 in
  wallets (cfg e1) = [Sample.w1; Sample.w2; Sample.w3] ∧
  (process_telegram_command (Sample.market [])
     ("/remove_wallet " +:+ Sample.w3) e1).1 = e.
Proof.
  apply (add_then_remove_wallet_restores (Sample.market []) (Sample.market [])
           Sample.w3 (Sample.engine0 [Sample.w1; Sample.w2] 2) eq_refl).
  repeat constructor.
Defined.

(** X5: the coin commands compare upper-case forms.  With a coin list in
    the configuration that does not hold the upper-case form of [c],
    [/add_coin c] appends that form, and a [/remove_coin] with any
    argument of the same upper-case form then gives the engine back as it
    was. *)
Theorem add_then_remove_coin_restores (w w' : world) (c c' : string)
    (e : engine) (ss : list string) :
  blank_free c = true → c ≠ "" →
  blank_free c' = true → upper c' = upper c →
  symbols (cfg e) = Some ss → upper c ∉ ss →
  let e1 := (process_telegram_command w ("/add_coin " +:+ c) e).1 in
  cfg_coins (cfg e1) = ss ++ [upper c] ∧
  (process_telegram_command w' ("/remove_coin " +:+ c') e1).1 = e.
Proof.
  intros Hb Hne Hb' Hup Hss Hnot.
  assert (Hne' : c' ≠ "") by (intros ->; by destruct c).
  rewrite (add_coin_outcome w c e Hb Hne), Hss. cbv zeta.
  cbn [default from_option]. unfold id.
  rewrite bool_decide_eq_false_2 by done. cbn [fst]. split; [done|].
  rewrite (remove_coin_outcome w' c' _ Hb' Hne'), Hup.
  cbn [cfg set_cfg symbols set_symbols default from_option]. cbv zeta.
  unfold id.
  rewrite bool_decide_eq_true_2 by (apply elem_of_app; right; by left).
  cbn [fst]. rewrite (list_remove_middle (upper c) ss [] Hnot), app_nil_r.
  by rewrite set_cfg_again, (set_symbols_back _ ss _ Hss), set_cfg_same.
Qed.

Lemma add_then_remove_coin_restores_witness :
  let e := Sample.engine0 [Sample.w1; Sample.w2] 2 in
  let e1 := (process_telegram_command (Sample.market []) ("/add_coin " +:+ "sol") e).1 in
  cfg_coins (cfg e1) = ["BTC"; "SOL"] ∧
  (process_telegram_command (Sample.market []) ("/remove_coin " +:+ "Sol") e1).1 = e.
Proof.
  apply (add_then_remove_coin_restores (Sample.market []) (Sample.market [])
           "sol" "Sol" (Sample.engine0 [Sample.w1; Sample.w2] 2) ["BTC"]
           eq_refl ltac:(discriminate) eq_refl eq_refl eq_refl).
  rewrite not_elem_of_cons. split; [vm_compute; discriminate|].
  apply not_elem_of_nil.
Defined.

(** X6: the numeric commands read the decimal text of an integer back as
    that integer and accept it exactly in their range.  [/set_consensus n]
    stores [n] as the threshold when [1 <= n] and the text of [n] has no
    more than 4300 digits (the limit of [int]); [/set_interval n] stores
    [n] as the polling interval when [10 <= n <= 600]; in every other
    case both leave the engine as it is. *)
Theorem numeric_commands_accept_decimal_in_range (w : world) (e : engine)
    (n : Z) :
  process_telegram_command w ("/set_consensus " +:+ pretty n) e =
    (if bool_decide ((1 ≤ n)%Z ∧ (count_digits (pretty n) ≤ 4300)%N)
     then (set_cfg e (set_consensus_count (cfg e) n),
           [MsgConsensusUpdated (cfg_consensus (cfg e)) n])
     else (e, [MsgConsensusInvalid])) ∧
  process_telegram_command w ("/set_interval " +:+ pretty n) e =
    (if bool_decide (10 ≤ n ≤ 600)%Z
     then (set_cfg e (set_poll_seconds (cfg e) n),
           [MsgIntervalUpdated (cfg_poll_seconds (cfg e)) n])
     else (e, [MsgIntervalInvalid])).
Proof.
  destruct (pretty_Z_blank_free n) as [Hb Hne].
  rewrite (set_consensus_outcome w _ e Hb Hne),
    (set_interval_outcome w _ e Hb Hne).
  destruct n as [|p|p].
  - split; reflexivity.
  - change (pretty (Z.pos p)) with (pretty (N.pos p)).
    rewrite (int_of_str_pretty_N (N.pos p)).
    pose proof (count_digits_pretty (N.pos p)) as Hc.
    change (Z.of_N (N.pos p)) with (Z.pos p).
    destruct (N.ltb_spec 4300 (count_digits (pretty (N.pos p)))) as [Hd|Hd].
    + split.
      * rewrite bool_decide_eq_false_2; [done|]. intros [_ ?]. lia.
      * rewrite bool_decide_eq_false_2; [done|]. lia.
    + split.
      * rewrite bool_decide_eq_true_2 by (split; lia).
        by destruct (Z.ltb_spec (Z.pos p) 1); [lia|].
      * case_bool_decide;
          destruct (Z.ltb_spec (Z.pos p) 10), (Z.ltb_spec 600 (Z.pos p));
          done || lia.
  - rewrite (int_of_str_pretty_neg p).
    rewrite !bool_decide_eq_false_2 by lia.
    destruct (4300 <? count_digits (pretty (N.pos p)))%N; [done|].
    split; reflexivity.
Qed.

(** The text of 3 is accepted as a threshold, the text of 0 is not, and
    5 is no polling interval. *)
Lemma numeric_commands_accept_decimal_in_range_witness :
  let e := Sample.engine0 [Sample.w1; Sample.w2] 2 in
  cfg_consensus (cfg (process_telegram_command (Sample.market [])
                        "/set_consensus 3" e).1) = 3%Z ∧
  process_telegram_command (Sample.market []) "/set_consensus 0" e =
    (e, [MsgConsensusInvalid]) ∧
  process_telegram_command (Sample.market []) "/set_interval 5" e =
    (e, [MsgIntervalInvalid]).
Proof.
  intros e.
  pose proof (proj1 (numeric_commands_accept_decimal_in_range
                       (Sample.market []) e 3)) as H3.
  pose proof (proj1 (numeric_commands_accept_decimal_in_range
                       (Sample.market []) e 0)) as H0.
  pose proof (proj2 (numeric_commands_accept_decimal_in_range
                       (Sample.market []) e 5)) as H5.
  split_and!; [|exact H0|exact H5].
  change ("/set_consensus " +:+ pretty 3%Z) with "/set_consensus 3" in H3.
  by rewrite H3.
Defined.

End CommandRoundTrips.

(** ** What a poll cycle does to the engine *)

Section CycleEffects.












End CycleEffects.

Section CycleState.

Lemma same_settings_refl (e : engine) : same_settings e e.
Proof. done. Qed.










Lemma clear_flag_state (e : engine) :
  let e1 := if force_check_flag e then set_force_check_flag e false else e in
  same_settings e e1 ∧ force_check_flag e1 = false ∧
  position_timestamps e1 = position_timestamps e ∧
  last_positions e1 = last_positions e ∧ last_signals e1 = last_signals e.
Proof. by destruct (force_check_flag e) eqn:H. Qed.






End CycleState.

Section CycleAlerts.







End CycleAlerts.

Section RepeatedCycles.

Lemma composition_ext (w w' : world) (ws : list string) (coin : string)
    (sd : position_side) :
  (∀ a, a ∈ ws → sampled_szi w' coin a = sampled_szi w coin a) →
  composition w' ws coin sd = composition w ws coin sd.
Proof.
  unfold composition. induction ws as [|a ws IH]; intros H; [done|].
  assert (Ha : sampled_szi w' coin a = sampled_szi w coin a)
    by (apply H; by left).
  assert (IH' := IH (λ b Hb, H b (list_elem_of_further _ _ _ Hb))).
  rewrite !filter_cons, Ha.
  case_decide; cbn [map]; by rewrite ?Ha, IH'.
Qed.

(** After the pass of a symbol, a side that reached the threshold has the
    fingerprint of its composition stored. *)
Lemma loop_coin_stored (w : world) (ws : list string) (T : Z) (up : bool)
    (e : engine) (C : string) (S : position_side) :
  (T ≤ Z.of_nat (length (composition w ws C S)))%Z →
  last_signals (loop_coin w ws T up e C).1 !! dedup_key C S =
    Some (fingerprint C S (composition w ws C S)).
Proof.
  intros Hr. unfold loop_coin.
  pose proof (side_signal_key w ws T up C (position_timestamps e)) as Hk.
  destruct (loop_rows w C (position_timestamps e) ws) as [stamps rows].
  cbn [snd] in Hk. set (e2 := set_last_positions _ _).
  rewrite signals_to_send_cases, process_signals_app. cbn zeta. cbn [fst].
  set (sL := make_signal C Long T (now w) up (side_rows Long rows)) in *.
  set (sS := make_signal C Short T (now w) up (side_rows Short rows)) in *.
  destruct S.
  - destruct (Hk Long) as [HkL HnL]. fold sL in HkL.
    rewrite <-HnL in Hr. apply Z.leb_le in Hr. rewrite Hr.
    rewrite process_signals_one.
    pose proof (process_signal_stored C e2 sL) as Hst.
    set (e3 := (process_signal C e2 sL).1) in *.
    destruct (process_half_key C Long C e3 sS
                (T <=? Z.of_nat (length (side_rows Short rows)))%Z eq_refl)
      as [[K _]|(_ & HS & _)]; [|done].
    etrans; [apply K|]. rewrite <-HkL. exact Hst.
  - destruct (Hk Short) as [HkS HnS]. fold sS in HkS.
    rewrite <-HnS in Hr. apply Z.leb_le in Hr. rewrite Hr.
    rewrite process_signals_one.
    rewrite <-HkS. exact (process_signal_stored C _ sS).
Qed.

Lemma loop_coins_stored (w : world) (ws : list string) (T : Z) (up : bool)
    (e : engine) (coins : list string) (C : string) (S : position_side) :
  C ∈ coins →
  (T ≤ Z.of_nat (length (composition w ws C S)))%Z →
  last_signals (loop_coins w ws T up e coins).1 !! dedup_key C S =
    Some (fingerprint C S (composition w ws C S)).
Proof.
  intros Hin Hr. revert e.
  induction coins as [|c coins IH]; intros e; [by apply elem_of_nil in Hin|].
  cbn -[loop_coin].
  pose proof (loop_coin_stored w ws T up e c S) as H1.
  destruct (loop_coin w ws T up e c) as [e1 ev1]. cbn [fst] in *.
  destruct (decide (C ∈ coins)) as [Hc|Hc].
  - specialize (IH Hc e1). by destruct (loop_coins w ws T up e1 coins).
  - apply elem_of_cons in Hin as [->|]; [|done].
    pose proof (loop_coins_key c S w ws T up e1 coins) as H2.
    destruct (loop_coins w ws T up e1 coins) as [e2 ev2]. cbn [fst snd] in *.
    destruct H2 as [[K _]|[_ (_ & K & _)]]; [|done].
    rewrite K. by apply H1.
Qed.

(** A pass of a symbol whose reached sides have their fingerprints stored
    sends nothing and stores nothing. *)
Lemma loop_coin_silent (w : world) (ws : list string) (T : Z) (up : bool)
    (e : engine) (C : string) :
  (∀ S, (T ≤ Z.of_nat (length (composition w ws C S)))%Z →
        last_signals e !! dedup_key C S =
          Some (fingerprint C S (composition w ws C S))) →
  (loop_coin w ws T up e C).2 = [] ∧
  last_signals (loop_coin w ws T up e C).1 = last_signals e.
Proof.
  intros Hst. unfold loop_coin.
  pose proof (side_signal_key w ws T up C (position_timestamps e)) as Hk.
  destruct (loop_rows w C (position_timestamps e) ws) as [stamps rows].
  cbn [snd] in Hk. set (e2 := set_last_positions _ _).
  rewrite signals_to_send_cases, process_signals_app. cbn zeta.
  set (sL := make_signal C Long T (now w) up (side_rows Long rows)) in *.
  set (sS := make_signal C Short T (now w) up (side_rows Short rows)) in *.
  destruct (Hk Long) as [HkL HnL]. destruct (Hk Short) as [HkS HnS].
  fold sL in HkL. fold sS in HkS.
  assert (H1 : process_signals C e2
                 (if (T <=? Z.of_nat (length (side_rows Long rows)))%Z
                  then [sL] else []) = (e2, [])).
  { destruct (Z.leb_spec T (Z.of_nat (length (side_rows Long rows))))
      as [Hle|_]; [|done].
    rewrite process_signals_one. apply process_signal_unchanged.
    rewrite HkL. apply (Hst Long). by rewrite <-HnL. }
  rewrite H1. cbn [fst snd].
  assert (H2 : process_signals C e2
                 (if (T <=? Z.of_nat (length (side_rows Short rows)))%Z
                  then [sS] else []) = (e2, [])).
  { destruct (Z.leb_spec T (Z.of_nat (length (side_rows Short rows))))
      as [Hle|_]; [|done].
    rewrite process_signals_one. apply process_signal_unchanged.
    rewrite HkS. apply (Hst Short). by rewrite <-HnS. }
  by rewrite H2.
Qed.

Lemma loop_coins_silent (w : world) (ws : list string) (T : Z) (up : bool)
    (e : engine) (coins : list string) :
  (∀ C S, C ∈ coins →
        (T ≤ Z.of_nat (length (composition w ws C S)))%Z →
        last_signals e !! dedup_key C S =
          Some (fingerprint C S (composition w ws C S))) →
  (loop_coins w ws T up e coins).2 = [] ∧
  last_signals (loop_coins w ws T up e coins).1 = last_signals e.
Proof.
  revert e. induction coins as [|c coins IH]; intros e Hst; [done|].
  cbn -[loop_coin].
  destruct (loop_coin_silent w ws T up e c) as [E1 L1].
  { intros S. apply Hst. by left. }
  destruct (loop_coin w ws T up e c) as [e1 ev1]. cbn [fst snd] in *.
  destruct (IH e1) as [E2 L2].
  { intros C S HC. rewrite L1. apply Hst. by right. }
  destruct (loop_coins w ws T up e1 coins) as [e2 ev2]. cbn [fst snd] in *.
  subst. split; [done|congruence].
Qed.

(** X11: a cycle that finds the sizes of the cycle before sends nothing.
    When the exchange reports for every watched wallet and configured
    symbol the size it reported in the previous cycle, the next cycle
    dispatches no event and leaves the stored fingerprints as they are,
    whatever the prices and the time have become, and also when the
    engine was touched in between (a forced check, say) as long as the
    configuration and the stored fingerprints were not. *)
Theorem unchanged_sizes_send_nothing (w w' : world) (e e1 : engine) :
  (∀ coin a, coin ∈ cfg_coins (cfg e) → a ∈ wallets (cfg e) →
             sampled_szi w' coin a = sampled_szi w coin a) →
  cfg e1 = cfg e →
  last_signals e1 = last_signals (loop_iteration w e).1 →
  (loop_iteration w' e1).2 = [] ∧
  last_signals (loop_iteration w' e1).1 = last_signals e1.
Proof.
  intros Hsz Hcfg Hls. unfold loop_iteration in *. rewrite Hcfg.
  destruct (wallets (cfg e)) as [|a ws] eqn:Hws; [done|].
  pose proof (clear_flag_state e) as (_ & _ & _ & _ & L0).
  pose proof (clear_flag_state e1) as (_ & _ & _ & _ & L1).
  set (e0 := if force_check_flag e then _ else _) in *.
  set (e2 := if force_check_flag e1 then _ else _) in *.
  destruct (loop_coins_silent w' (a :: ws) (cfg_consensus (cfg e))
              (cfg_use_positions (cfg e)) e2 (cfg_coins (cfg e)))
    as [E L].
  { intros C S HC Hr.
    rewrite (composition_ext w w') in Hr |- * by (intros b Hb; by apply Hsz).
    rewrite L1, Hls. by apply loop_coins_stored. }
  split; [done|congruence].
Qed.

Lemma unchanged_sizes_send_nothing_witness :
  let e := Sample.engine0 [Sample.w1; Sample.w2] 2 in
  let e1 := set_force_check_flag (loop_iteration Sample.both_long e).1 true in
  (loop_iteration Sample.both_long e).2 ≠ [] ∧
  (loop_iteration Sample.both_long_later e1).2 = [] ∧
  last_signals (loop_iteration Sample.both_long_later e1).1 = last_signals e1.
Proof.
  intros e e1. split; [vm_compute; discriminate|].
  apply (unchanged_sizes_send_nothing Sample.both_long Sample.both_long_later
           e e1).
  - intros coin a _ _. reflexivity.
  - vm_compute. reflexivity.
  - reflexivity.
Defined.

Lemma last_rows_composition (w : world) (coin : string)
    (stamps : gmap string string) (ws : list string) (sd : position_side) :
  row_composition (side_rows sd (map (last_row w coin stamps) ws)) =
    composition w ws coin sd.
Proof.
  unfold row_composition, composition, side_rows.
  induction ws as [|a ws IH]; [done|].
  cbn [map]. rewrite !filter_cons.
  change (side (last_row w coin stamps a))
    with (side_of (sampled_szi w coin a)).
  case_decide; cbn [map]; by rewrite IH.
Qed.



End RepeatedCycles.

(** ** The order of a poll cycle *)

Section CycleOrder.





Variables (w : world) (e0 : engine) (F : gmap string string).

Let ws := wallets (cfg e0).
Let T := cfg_consensus (cfg e0).
Let up := cfg_use_positions (cfg e0).

Lemma side_signal_facts (c : string) (sd : position_side) :
  let s := side_signal w e0 F c sd in
  _get_signal_key s = fingerprint c sd (composition w ws c sd) ∧
  sig_count s = Z.of_nat (length (composition w ws c sd)).
Proof.
  intros s. split.
  - unfold s. rewrite key_fingerprint. cbn. by rewrite last_rows_composition.
  - unfold s, side_signal. cbn. f_equal.
    rewrite <-(last_rows_composition w c F ws sd).
    unfold row_composition. by rewrite length_map.
Qed.





End CycleOrder.



(** ** The other readers of positions *)

Section Readers.

(** Signs of floats: a number above or below zero is not zero, and a
    number of magnitude above 0.0001 is above or below zero. *)
Lemma float_sign (v : float) :
  (fgt v 0 = true → truthy v = true) ∧
  (flt v 0 = true → truthy v = true) ∧
  (fgt (fabs v) 0.0001 = true → fgt v 0 = false → flt v 0 = true).
Proof.
  unfold fgt, flt, truthy, fabs.
  rewrite !FloatAxioms.ltb_spec, FloatAxioms.eqb_spec, FloatAxioms.abs_spec.
  change (Prim2SF 0) with (S754_zero false).
  set (t := Prim2SF 0.0001). vm_compute in t. subst t.
  destruct (Prim2SF v) as [[]|[]| |[] m ex]; cbn; split_and!; done.
Qed.

Lemma snapshot_row_side (w : world) (coin a : string) :
  side (snapshot_row w coin a) = side_of (sampled_szi w coin a).
Proof.
  unfold snapshot_row, sampled_szi, side_of. cbn [side].
  destruct (d_szi _) as [v|]; [|done].
  destruct (float_sign v) as (Hp & Hn & _).
  destruct (fgt v 0) eqn:Hg; [by rewrite Hp|].
  destruct (flt v 0) eqn:Hl; [by rewrite Hn|].
  by rewrite !andb_false_r.
Qed.

Lemma snapshot_rows_composition (w : world) (coin : string)
    (ws : list string) (sd : position_side) :
  row_composition (side_rows sd (map (snapshot_row w coin) ws)) =
    composition w ws coin sd.
Proof.
  unfold row_composition, composition, side_rows.
  induction ws as [|a ws IH]; [done|].
  cbn [map]. rewrite !filter_cons, snapshot_row_side.
  case_decide; cbn [map]; by rewrite IH.
Qed.

Lemma same_composition_same_consensus (coin : string) (T : Z)
    (ts ts' : string) (up up' : bool) (rows rows' : list row) :
  (∀ sd, row_composition (side_rows sd rows) =
         row_composition (side_rows sd rows')) →
  Forall2 same_consensus (signals_to_send coin T ts up rows)
    (signals_to_send coin T ts' up' rows').
Proof.
  intros H.
  assert (Hlen : ∀ sd, length (side_rows sd rows) = length (side_rows sd rows')).
  { intros sd. specialize (H sd). apply (f_equal length) in H.
    unfold row_composition in H. by rewrite !length_map in H. }
  rewrite !signals_to_send_cases, !Hlen.
  apply Forall2_app.
  - case_match; repeat constructor; cbn; rewrite ?Hlen, ?H; try done.
    rewrite !key_fingerprint. cbn. by rewrite H.
  - case_match; repeat constructor; cbn; rewrite ?Hlen, ?H; try done.
    rewrite !key_fingerprint. cbn. by rewrite H.
Qed.

(** X13: the snapshot computed for [/refresh] tests sizes by truth value
    where [/last] compares them with [None], and yet both find the same
    consensus: signal by signal the same symbol, side, count and
    threshold, the same wallets with the same sizes, and so the same
    fingerprint. *)
Theorem refresh_agrees_with_last (w : world) (e : engine) :
  wallets (cfg e) ≠ [] →
  Forall2 same_consensus (compute_last_snapshot w e)
    (flat_map (last_coin w e (wallets (cfg e)) (cfg_consensus (cfg e)))
       (cfg_coins (cfg e))).
Proof.
  intros Hne. unfold compute_last_snapshot.
  destruct (wallets (cfg e)) as [|a ws]; [done|].
  induction (cfg_coins (cfg e)) as [|coin coins IH]; [constructor|].
  cbn [flat_map]. apply Forall2_app; [|done].
  apply same_composition_same_consensus. intros sd.
  by rewrite snapshot_rows_composition, last_rows_composition.
Qed.

Lemma refresh_agrees_with_last_witness :
  let e := Sample.engine0 [Sample.w1; Sample.w2] 1 in
  Forall2 same_consensus (compute_last_snapshot Sample.long_and_short e)
    (flat_map (last_coin Sample.long_and_short e (wallets (cfg e))
                 (cfg_consensus (cfg e)))
       (cfg_coins (cfg e))) ∧
  length (compute_last_snapshot Sample.long_and_short e) = 2%nat.
Proof.
  intros e. split; [|vm_compute; reflexivity].
  apply (refresh_agrees_with_last Sample.long_and_short e).
  vm_compute. discriminate.
Defined.


End Readers.

(** ** The Telegram listener *)

Section Listener.

Lemma listener_update_other (chat : string) (e : engine)
    (wu : world * update) :
  from_chat chat wu = false → listener_update chat e wu = (e, refusal wu).
Proof.
  unfold from_chat, listener_update, refusal.
  destruct (upd_message wu.2) as [[c t]|]; [|done]. by intros ->.
Qed.

Lemma listener_updates_cons (chat : string) (e : engine)
    (wu : world * update) (l : list (world * update)) :
  listener_updates chat e (wu :: l) =
    let r1 := listener_update chat e wu in
    let r2 := listener_updates chat r1.1 l in
    (r2.1, r1.2 ++ r2.2).
Proof.
  cbn -[listener_update]. destruct (listener_update chat e wu) as [e1 r1].
  cbn. by destruct (listener_updates chat e1 l).
Qed.

(** X15: the listener serves the configured chat only.  Without a bot
    token or a chat id it does nothing; a text message from another chat
    is answered by a refusal quoting the sender's chat id and leaves the
    engine as it is; so the engine after a batch of updates is the engine
    after the messages of the configured chat alone. *)
Theorem listener_serves_configured_chat_only (token chat : string)
    (e : engine) (l : list (world * update)) :
  (token = "" ∨ chat = "" → telegram_listener token chat e l = (e, [])) ∧
  (telegram_listener token chat e l).1 =
    (telegram_listener token chat e (List.filter (from_chat chat) l)).1 ∧
  (token ≠ "" → chat ≠ "" →
   Forall (λ wu, from_chat chat wu = false) l →
   telegram_listener token chat e l = (e, flat_map refusal l)).
Proof.
  unfold telegram_listener. split_and!.
  - intros [-> | ->]; [done|]. by rewrite orb_true_r.
  - destruct (String.eqb token "" || String.eqb chat ""); [done|].
    revert e. induction l as [|wu l IH]; intros e; [done|].
    cbn [List.filter]. destruct (from_chat chat wu) eqn:Hc.
    + rewrite !listener_updates_cons. cbn zeta. cbn [fst]. apply IH.
    + rewrite listener_updates_cons, (listener_update_other _ _ _ Hc).
      cbn zeta. cbn [fst]. apply IH.
  - intros Ht Hc Hl.
    apply String.eqb_neq in Ht as ->. apply String.eqb_neq in Hc as ->.
    cbn [orb]. revert e.
    induction Hl as [|wu l Hwu _ IH]; intros e; [done|].
    rewrite listener_updates_cons, (listener_update_other _ _ _ Hwu).
    cbn zeta. cbn [fst snd flat_map]. by rewrite IH.
Qed.

End Listener.

(** ** The dashboard *)

Section Dashboard.
Variable float_of_str : string → option float.

Lemma keep_wallets_match (l : list json) (ws : list string) :
  keep_wallets l = Some ws → Forall (λ a, _WALLET_RE_match a = true) ws.
Proof.
  revert ws. induction l as [|[| | | |s| |] l IH]; intros ws H;
    simplify_eq/=; [constructor|].
  destruct (keep_wallets l) as [rest|]; simplify_eq/=.
  specialize (IH rest eq_refl).
  destruct (_WALLET_RE_match s) eqn:Hs; [by constructor|done].
Qed.

Lemma upper_all_upper (l : list json) (ss : list string) :
  upper_all l = Some ss → Forall (λ s, upper s = s) ss.
Proof.
  revert ss. induction l as [|[| | | |s| |] l IH]; intros ss H;
    simplify_eq/=; [constructor|].
  destruct (upper_all l) as [rest|]; simplify_eq/=.
  constructor; [apply upper_idemp|by apply IH].
Qed.

Lemma patch_item_lists (current new_cfg c : config) (kv : string * json) :
  patch_item float_of_str current new_cfg kv = Some c →
  (Forall (λ a, _WALLET_RE_match a = true) (wallets new_cfg) →
   Forall (λ a, _WALLET_RE_match a = true) (wallets c)) ∧
  (Forall (λ s, upper s = s) (cfg_coins new_cfg) →
   Forall (λ s, upper s = s) (cfg_coins c)).
Proof.
  unfold patch_item. destruct kv as [k v].
  repeat case_match; intros Hc; simplify_eq; try done.
  - destruct (keep_wallets (as_list v)) as [ws|] eqn:Hw; simplify_eq/=.
    split; [|done]. intros _. by eapply keep_wallets_match.
  - destruct (upper_all (as_list v)) as [ss|] eqn:Hu; simplify_eq/=.
    split; [done|]. intros _. by eapply upper_all_upper.
Qed.

Lemma patch_items_lists (current new_cfg c : config)
    (items : list (string * json)) :
  patch_items float_of_str current new_cfg items = Some c →
  (Forall (λ a, _WALLET_RE_match a = true) (wallets new_cfg) →
   Forall (λ a, _WALLET_RE_match a = true) (wallets c)) ∧
  (Forall (λ s, upper s = s) (cfg_coins new_cfg) →
   Forall (λ s, upper s = s) (cfg_coins c)).
Proof.
  revert new_cfg. induction items as [|kv items IH]; intros new_cfg H.
  { by simplify_eq/=. }
  cbn -[patch_item] in H.
  destruct (patch_item float_of_str current new_cfg kv) as [c1|] eqn:H1;
    [|done].
  cbn -[patch_item] in H.
  destruct (patch_item_lists _ _ _ _ H1) as [A1 B1].
  destruct (IH c1 H) as [A2 B2]. split; auto.
Qed.

Lemma patch_item_other (current new_cfg : config) (kv : string * json) :
  patch_key kv.1 = false →
  patch_item float_of_str current new_cfg kv = Some new_cfg.
Proof.
  destruct kv as [k v]. unfold patch_key, patch_item. cbn [existsb fst].
  intros H. repeat (apply orb_false_iff in H as [-> H]). done.
Qed.

(** X16: what [PATCH /config] keeps.  The stored wallet list holds only
    texts the address pattern accepts if it did before, the symbols stay
    in upper case, keys the endpoint does not know leave the engine as it
    is, and nothing but the configuration is written (the stored
    fingerprints, the first-seen times, the row cache and the force-check
    flag are those of before). *)
Theorem patch_config_keeps_validated_lists (e : engine)
    (patch : list (string * json)) :
  let e' := patch_config float_of_str e patch in
  (Forall (λ a, _WALLET_RE_match a = true) (wallets (cfg e)) →
   Forall (λ a, _WALLET_RE_match a = true) (wallets (cfg e'))) ∧
  (Forall (λ s, upper s = s) (cfg_coins (cfg e)) →
   Forall (λ s, upper s = s) (cfg_coins (cfg e'))) ∧
  (Forall (λ kv, patch_key kv.1 = false) patch → e' = e) ∧
  last_signals e' = last_signals e ∧
  position_timestamps e' = position_timestamps e ∧
  last_positions e' = last_positions e ∧
  force_check_flag e' = force_check_flag e.
Proof.
  unfold patch_config.
  destruct (patch_items float_of_str (cfg e) (cfg e) patch) as [c|] eqn:Hp.
  - destruct (patch_items_lists _ _ _ _ Hp) as [A B].
    split_and!; try done.
    intros Hk. assert (c = cfg e) as ->; [|by destruct e].
    clear A B. revert Hp. generalize (cfg e) at 2 3 as new_cfg.
    induction Hk as [|kv items Hkv _ IH]; intros new_cfg Hp.
    { by simplify_eq/=. }
    cbn -[patch_item] in Hp. rewrite (patch_item_other _ _ _ Hkv) in Hp.
    by apply IH.
  - split_and!; done.
Qed.

End Dashboard.

Section StartUp.
Variable float_of_str : string → option float.

(** X17: [_normalize_cfg] always returns a dictionary with a dictionary
    under ["config"], returns a configuration of that form as it is (so
    normalizing twice is normalizing once), and the engine constructor
    then takes the result as it is. *)
Theorem normalize_cfg_is_idempotent (raw : json) :
  (∃ l c, _normalize_cfg raw = JObj l ∧ json_get "config" l = Some (JObj c) ∧
          engine_init_cfg l = l) ∧
  _normalize_cfg (_normalize_cfg raw) = _normalize_cfg raw ∧
  (∀ l c, raw = JObj l → json_get "config" l = Some (JObj c) →
          _normalize_cfg raw = raw).
Proof.
  assert (Hshape : ∃ l c, _normalize_cfg raw = JObj l ∧
                          json_get "config" l = Some (JObj c)).
  { destruct raw as [| | | | | |l]; try (by eexists _, _).
    unfold _normalize_cfg.
    destruct (json_get "config" l) as [[| | | | | |c]|] eqn:Hc;
      by eexists _, _. }
  destruct Hshape as (l & c & Hn & Hc). split_and!.
  - exists l, c. split_and!; [done..|]. unfold engine_init_cfg. by rewrite Hc.
  - rewrite Hn. unfold _normalize_cfg at 1. by rewrite Hc.
  - intros l' c' -> Hc'. unfold _normalize_cfg. by rewrite Hc'.
Qed.

Lemma get_all_mids_fold (l : list (string * json))
    (out : gmap string float) (k : string) (f : float) :
  fold_left
    (λ out kv,
       match to_float float_of_str kv.2 with
       | Some f => <[upper kv.1 := f]> out
       | None => out
       end) l out !! k = Some f →
  out !! k = Some f ∨
  (upper k = k ∧ ∃ k0 v, (k0, v) ∈ l ∧ upper k0 = k ∧
                         to_float float_of_str v = Some f).
Proof.
  revert out. induction l as [|[k0 v] l IH]; intros out H; [by left|].
  cbn [fold_left fst snd] in H. apply IH in H as [H|(Hk & k1 & v1 & Hin & H1 & H2)].
  - destruct (to_float float_of_str v) as [f0|] eqn:Hv; [|by left].
    destruct (decide (upper k0 = k)) as [<-|Hne].
    + rewrite lookup_insert_eq in H. simplify_eq. right.
      split; [apply upper_idemp|]. exists k0, v. split_and!; [by left|done..].
    + rewrite lookup_insert_ne in H by done. by left.
  - right. split; [done|]. exists k1, v1. split_and!; [by right|done..].
Qed.

(** X18: every key of the price table [get_all_mids] builds is in upper
    case and comes from an entry of the reply whose value [float]
    accepts; a reply that is not a dictionary gives the empty table. *)
Theorem mids_keys_are_upper_case (res : json) (k : string) (f : float) :
  get_all_mids float_of_str res !! k = Some f →
  upper k = k ∧
  ∃ l k0 v, res = JObj l ∧ (k0, v) ∈ l ∧ upper k0 = k ∧
            to_float float_of_str v = Some f.
Proof.
  unfold get_all_mids. destruct res as [| | | | | |l]; try done.
  intros [H|(Hk & k0 & v & Hin & H1 & H2)]%get_all_mids_fold; [done|].
  split; [done|]. by exists l, k0, v.
Qed.

End StartUp.

Lemma mids_keys_are_upper_case_witness :
  get_all_mids (λ _, None) (JObj [("btc", JFloat 61000)]) !! "BTC" =
    Some 61000%float ∧
  upper "BTC" = "BTC".
Proof.
  assert (H : get_all_mids (λ _, None) (JObj [("btc", JFloat 61000)]) !! "BTC"
              = Some 61000%float) by (vm_compute; reflexivity).
  split; [exact H|].
  exact (proj1 (mids_keys_are_upper_case (λ _, None) _ _ _ H)).
Defined.

Section Positions.

(** X19: [extract_pos_details] compares symbols in upper case and takes
    the first position of the symbol: symbols that differ only in case
    get the same details; and either the state holds no position of the
    symbol and every field is [None], or the details are those of the
    first position whose symbol matches. *)
Theorem extract_pos_details_first_match (st : list asset_position)
    (coin : string) :
  (∀ coin', upper coin' = upper coin →
            extract_pos_details st coin' = extract_pos_details st coin) ∧
  ((Forall (λ p, upper (pos_coin p) ≠ upper coin) st ∧
    extract_pos_details st coin = no_details) ∨
   (∃ l1 p l2, st = l1 ++ p :: l2 ∧
      Forall (λ p, upper (pos_coin p) ≠ upper coin) l1 ∧
      upper (pos_coin p) = upper coin ∧
      extract_pos_details st coin = details_of p)).
Proof.
  split.
  - intros coin' Hc. induction st as [|p st IH]; [done|].
    cbn [extract_pos_details]. by rewrite Hc, IH.
  - induction st as [|p st IH]; [by left|].
    cbn [extract_pos_details].
    destruct (String.eqb_spec (upper (pos_coin p)) (upper coin)) as [Heq|Hne];
      cbn [negb].
    + right. exists [], p, st. by split_and!.
    + destruct IH as [[Hall Hno]|(l1 & q & l2 & -> & Hall & Hq & Hd)].
      * left. split; [by constructor|done].
      * right. exists (p :: l1), q, l2. split_and!; [done| |done..].
        by constructor.
Qed.

End Positions.

Section PlainText.

Lemma lower_char_slash (c : ascii) :
  Ascii.eqb c "/" = false → Ascii.eqb (lower_char c) "/" = false.
Proof.
  destruct c as [[] [] [] [] [] [] [] []]; intros H;
    (discriminate H || reflexivity).
Qed.

Lemma lower_no_slash (s : string) :
  startswith s "/" = false →
  (∀ p, String.eqb (lower s) (String "/" p) = false) ∧
  (∀ p, startswith (lower s) (String "/" p) = false).
Proof.
  destruct s as [|c r]; [done|]. intros H.
  assert (Hc : Ascii.eqb c "/" = false).
  { cbn [startswith] in H. destruct (Ascii.eqb c "/"); [|done].
    by destruct r. }
  apply lower_char_slash in Hc.
  change (lower (String c r)) with (String (lower_char c) (lower r)).
  split; intros p; cbn [String.eqb startswith]; by rewrite Hc.
Qed.

Lemma raw_command_name (text p : string) :
  startswith (strip text) "/" = false →
  startswith (strip p) "/" = true →
  String.eqb text p = false.
Proof. destruct (String.eqb_spec text p) as [->|]; congruence. Qed.

(** X20: a text that, once trimmed, does not begin with a slash is no
    command: it gets the "not recognized" reply and the engine is left as
    it is. *)
Theorem plain_text_is_not_a_command (w : world) (text : string)
    (e : engine) :
  startswith (strip text) "/" = false →
  process_telegram_command w text e = (e, [MsgUnrecognized]).
Proof.
  intros H. destruct (lower_no_slash _ H) as [E S].
  unfold process_telegram_command.
  rewrite !E, !S.
  rewrite (raw_command_name text "/last" H eq_refl),
    (raw_command_name text "/latest" H eq_refl),
    (raw_command_name text "/status" H eq_refl),
    (raw_command_name text "/config" H eq_refl),
    (raw_command_name text "/stats" H eq_refl).
  reflexivity.
Qed.

Lemma plain_text_is_not_a_command_witness :
  process_telegram_command (Sample.market []) "  add_wallet 0x12 "
    (Sample.engine0 [Sample.w1] 1) =
  (Sample.engine0 [Sample.w1] 1, [MsgUnrecognized]).
Proof.
  apply plain_text_is_not_a_command. reflexivity.
Defined.

End PlainText.

(** ** What the dashboard receives and sends *)

Section Feed.




End Feed.

Section WalletText.
Variable float_of_str : string → option float.

Lemma split_on_word (a : string) :
  free_of "," a = true → split_on "," a = [a].
Proof.
  induction a as [|c a IH]; [done|]. unfold free_of in *. simpl.
  intros [Hc Ha]%andb_true_iff. apply negb_true_iff in Hc.
  by rewrite Hc, (IH Ha).
Qed.

Lemma split_on_app (a rest : string) :
  free_of "," a = true →
  split_on "," (a +:+ String "," rest) = a :: split_on "," rest.
Proof.
  induction a as [|c a IH]; [done|]. unfold free_of in *.
  rewrite str_app_cons. simpl.
  intros [Hc Ha]%andb_true_iff. apply negb_true_iff in Hc.
  by rewrite Hc, (IH Ha).
Qed.

Lemma strip_word (a : string) : blank_free a = true → strip a = a.
Proof.
  intros H. unfold strip. by rewrite (lstrip_word a H), (rstrip_word a H).
Qed.

Lemma strip_blank_word (a : string) :
  blank_free a = true → strip (String " " a) = a.
Proof. intros H. unfold strip. simpl. by rewrite (lstrip_word a H), (rstrip_word a H). Qed.

(** The pieces of a list written with [", "] between its items. *)
Lemma split_on_join (a : string) (l : list string) :
  Forall (λ x, free_of "," x = true) (a :: l) →
  split_on "," (join ", " (a :: l)) = a :: map (String " ") l.
Proof.
  revert a. induction l as [|b l IH]; intros a Hl.
  - apply split_on_word. by inversion Hl.
  - inversion Hl as [|? ? Ha Hl']. subst.
    change (join ", " (a :: b :: l)) with
      (a +:+ String "," (String " " (join ", " (b :: l)))).
    rewrite (split_on_app _ _ Ha). f_equal.
    change (split_on "," (String " " (join ", " (b :: l)))) with
      (match split_on "," (join ", " (b :: l)) with
       | w :: ws => String " " w :: ws
       | [] => [String " " EmptyString]
       end).
    by rewrite (IH b Hl').
Qed.

Lemma comma_list_join (l : list string) :
  Forall (λ x, is_wallet_address x = true) l →
  comma_list (join ", " l) = map JStr l.
Proof.
  intros Hl. unfold comma_list. destruct l as [|a l]; [done|].
  rewrite split_on_join
    by (eapply Forall_impl; [done|]; apply wallet_address_comma_free).
  inversion Hl as [|? ? Ha Hl']. subst. f_equal.
  cbn [map List.filter].
  rewrite (strip_word a) by by apply wallet_address_blank_free.
  destruct (String.eqb_spec a "") as [->|_]; [done|]. cbn [negb]. f_equal.
  clear Ha Hl. induction Hl' as [|b l Hb _ IH]; [done|].
  cbn [map List.filter].
  rewrite (strip_blank_word b) by by apply wallet_address_blank_free.
  destruct (String.eqb_spec b "") as [->|_]; [done|]. cbn [negb].
  by rewrite IH.
Qed.

Lemma blank_free_no_final_space (s : string) :
  blank_free s = true → ends_with_space s = false.
Proof.
  induction s as [|c s IH]; [done|]. unfold blank_free in *. simpl.
  intros [Hc Hs]%andb_true_iff. apply negb_true_iff in Hc.
  destruct s; [done|]. by apply IH.
Qed.

Lemma keep_wallets_valid (l : list string) :
  Forall (λ x, is_wallet_address x = true) l →
  keep_wallets (map JStr l) = Some l.
Proof.
  induction 1 as [|a l Ha _ IH]; [done|]. cbn [map keep_wallets].
  rewrite IH. cbn.
  rewrite wallet_re_exact, Ha; [done|].
  by apply blank_free_no_final_space, wallet_address_blank_free.
Qed.

(** X22: the textual form of the wallet list.  [PATCH /config] with the
    well-formed addresses of a list written in one text, separated by a
    comma and a blank, does what it does with the list itself: the stored
    wallet list becomes that list, in order. *)
Theorem patch_wallet_text_is_wallet_list (e : engine) (l : list string) :
  Forall (λ x, is_wallet_address x = true) l →
  patch_config float_of_str e [("wallets", JStr (join ", " l))] =
    patch_config float_of_str e [("wallets", JList (map JStr l))] ∧
  patch_config float_of_str e [("wallets", JStr (join ", " l))] =
    set_cfg e (set_wallets (cfg e) l).
Proof.
  intros Hl. unfold patch_config, patch_items, patch_item.
  change (String.eqb "wallets" "wallets") with true. cbn iota.
  unfold as_list. rewrite (comma_list_join l Hl), (keep_wallets_valid l Hl).
  done.
Qed.

End WalletText.

Lemma patch_wallet_text_is_wallet_list_witness :
  let e := Sample.engine0 [Sample.w1] 1 in
  wallets (cfg (patch_config (λ _, None) e
                  [("wallets", JStr (Sample.w2 +:+ ", " +:+ Sample.w3))])) =
    [Sample.w2; Sample.w3].
Proof.
  intros e.
  destruct (patch_wallet_text_is_wallet_list (λ _, None) e
              [Sample.w2; Sample.w3] ltac:(repeat constructor)) as [_ H].
  change (join ", " [Sample.w2; Sample.w3])
    with (Sample.w2 +:+ ", " +:+ Sample.w3) in H.
  by rewrite H.
Defined.
